(** * anthropic_proxy.server: the rendering pipeline of the proxy

    A shallow embedding of [ProxyServer] (src/anthropic_proxy/server.py):
    the canonical fingerprint ([compute_hash]), the preview builder
    ([create_preview]), the structural collapser ([cache_and_replace]) with
    its session cache, the tools filter ([filter_tools]), the renderer
    ([format_json]), the stream condenser ([parse_streaming_response]) and
    the two trace writers ([print_request], [print_response]).

    Python values are modelled as the code has them:
    - a [str] is a sequence of Unicode code points, [list N];
    - [bytes] is [list byte];
    - a JSON-like value is the inductive [json]; a [dict] keeps its
      insertion order, so it is an association list whose keys are
      distinct ([dict_wf]);
    - [self.json_cache] is a finite map from digests to previews;
    - an exception is the [Raise] case of [outcome], and a method that
      mutates [self] returns the new [self] next to its outcome, also
      when it raises. *)

From Stdlib Require Import NArith ZArith List Decimal.
From Stdlib.Strings Require Import Ascii String Byte.
From stdpp Require Import base tactics option list sorting gmap.

Local Open Scope N_scope.

(** ** Python strings *)

Abbreviation str := (list N).

(** [u "abc"] is the Python literal ['abc']: one code point per character. *)
Fixpoint u (s : string) : list N :=
  match s with
  | EmptyString => []
  | String a s' => N_of_ascii a :: u s'
  end.

Definition NL : N := 10.
Definition ESC : N := 27.

Definition str_eqb (a b : list N) : bool := bool_decide (a = b).

(** [sep.join(parts)] *)
Fixpoint join (sep : list N) (parts : list (list N)) : list N :=
  match parts with
  | [] => []
  | [p] => p
  | p :: ps => p ++ sep ++ join sep ps
  end.

(** [s.split(c)] for a one-character separator: always at least one piece. *)
Fixpoint split (c : N) (s : list N) : list (list N) :=
  match s with
  | [] => [[]]
  | x :: s' =>
      if N.eqb x c then [] :: split c s'
      else match split c s' with
           | [] => [[x]]
           | p :: ps => (x :: p) :: ps
           end
  end.

(** [s.startswith(p)] *)
Fixpoint startswith (p s : list N) : bool :=
  match p, s with
  | [], _ => true
  | _ :: _, [] => false
  | a :: p', b :: s' => N.eqb a b && startswith p' s'
  end.

(** The code points [str.strip()] removes: those [str.isspace()] accepts. *)
Definition isspace (c : N) : bool :=
  ((9 <=? c) && (c <=? 13)) || ((28 <=? c) && (c <=? 32))
  || (c =? 133) || (c =? 160) || (c =? 5760)
  || ((8192 <=? c) && (c <=? 8202))
  || (c =? 8232) || (c =? 8233) || (c =? 8239) || (c =? 8287) || (c =? 12288).

Fixpoint lstrip (s : list N) : list N :=
  match s with
  | [] => []
  | c :: s' => if isspace c then lstrip s' else s
  end.

Definition rstrip (s : list N) : list N := rev (lstrip (rev s)).

(** [s.strip()] *)
Definition strip (s : list N) : list N := rstrip (lstrip s).

(** [s * n] *)
Fixpoint repeat_str (s : list N) (n : nat) : list N :=
  match n with
  | O => []
  | S n' => s ++ repeat_str s n'
  end.

(** [str(n)] for a non-negative [int]. *)
Fixpoint digits_of_uint (d : Decimal.uint) : list N :=
  match d with
  | Decimal.Nil => []
  | Decimal.D0 d' => 48 :: digits_of_uint d'
  | Decimal.D1 d' => 49 :: digits_of_uint d'
  | Decimal.D2 d' => 50 :: digits_of_uint d'
  | Decimal.D3 d' => 51 :: digits_of_uint d'
  | Decimal.D4 d' => 52 :: digits_of_uint d'
  | Decimal.D5 d' => 53 :: digits_of_uint d'
  | Decimal.D6 d' => 54 :: digits_of_uint d'
  | Decimal.D7 d' => 55 :: digits_of_uint d'
  | Decimal.D8 d' => 56 :: digits_of_uint d'
  | Decimal.D9 d' => 57 :: digits_of_uint d'
  end.

Definition str_of_N (n : N) : list N := digits_of_uint (N.to_uint n).

(** [str(z)] for an [int]. *)
Definition str_of_Z (z : Z) : list N :=
  match z with
  | Zneg p => 45 :: str_of_N (Npos p)
  | _ => str_of_N (Z.to_N z)
  end.

Definition str_of_nat (n : nat) : list N := str_of_N (N.of_nat n).

(** One lowercase hexadecimal digit. *)
Definition hex_digit (d : N) : N := if d <? 10 then 48 + d else 87 + d.

(** [n] as exactly [k] lowercase hexadecimal digits (the low [4k] bits). *)
Fixpoint hex_fixed (k : nat) (n : N) : list N :=
  match k with
  | O => []
  | S k' => hex_fixed k' (N.shiftr n 4) ++ [hex_digit (N.land n 15)]
  end.

(** ** Exceptions *)

Inductive exn : Type :=
| TypeError
| AttributeError
| DictSliceError
| UnicodeEncodeError
| JSONDecodeError
| ValueError
| RecursionError.

Inductive outcome (A : Type) : Type :=
| Ok (a : A)
| Raise (e : exn).
Arguments Ok {A} a.
Arguments Raise {A} e.

Definition obind {A B} (x : outcome A) (f : A -> outcome B) : outcome B :=
  match x with
  | Ok a => f a
  | Raise e => Raise e
  end.

Notation "'do' x <- c1 ; c2" := (obind c1 (fun x => c2))
  (at level 10, x name, c1 at level 100, c2 at level 200).

(** ** UTF-8 *)

Definition is_surrogate (c : N) : bool := (55296 <=? c) && (c <=? 57343).

(** [s.encode()]: [None] stands for [UnicodeEncodeError] (a lone surrogate). *)
Definition encode_char (c : N) : option (list N) :=
  if c <? 128 then Some [c]
  else if c <? 2048 then Some [192 + N.shiftr c 6; 128 + N.land c 63]
  else if is_surrogate c then None
  else if c <? 65536 then
    Some [224 + N.shiftr c 12; 128 + N.land (N.shiftr c 6) 63; 128 + N.land c 63]
  else if c <? 1114112 then
    Some [240 + N.shiftr c 18; 128 + N.land (N.shiftr c 12) 63;
          128 + N.land (N.shiftr c 6) 63; 128 + N.land c 63]
  else None.

Definition byte_of_N (n : N) : byte :=
  match Byte.of_N n with
  | Some b => b
  | None => x00
  end.

Fixpoint encode_utf8 (s : list N) : option (list byte) :=
  match s with
  | [] => Some []
  | c :: s' =>
      match encode_char c, encode_utf8 s' with
      | Some bs, Some rest => Some (map byte_of_N bs ++ rest)
      | _, _ => None
      end
  end.

Definition is_cont (b : N) : bool := (128 <=? b) && (b <=? 191).
Definition cont_bits (b : N) : N := N.land b 63.

(** [b.decode('utf-8')]: [None] stands for [UnicodeDecodeError]. *)
Fixpoint decode_utf8_N (bs : list N) : option (list N) :=
  match bs with
  | [] => Some []
  | b0 :: r0 =>
      if b0 <? 128 then cons b0 <$> decode_utf8_N r0
      else if (194 <=? b0) && (b0 <=? 223) then
        match r0 with
        | b1 :: r1 =>
            if is_cont b1
            then cons (N.shiftl (N.land b0 31) 6 + cont_bits b1) <$> decode_utf8_N r1
            else None
        | _ => None
        end
      else if (224 <=? b0) && (b0 <=? 239) then
        match r0 with
        | b1 :: b2 :: r2 =>
            let c := N.shiftl (N.land b0 15) 12 + N.shiftl (cont_bits b1) 6 + cont_bits b2 in
            if is_cont b1 && is_cont b2 && (2048 <=? c) && negb (is_surrogate c)
            then cons c <$> decode_utf8_N r2
            else None
        | _ => None
        end
      else if (240 <=? b0) && (b0 <=? 244) then
        match r0 with
        | b1 :: b2 :: b3 :: r3 =>
            let c := N.shiftl (N.land b0 7) 18 + N.shiftl (cont_bits b1) 12
                     + N.shiftl (cont_bits b2) 6 + cont_bits b3 in
            if is_cont b1 && is_cont b2 && is_cont b3 && (65536 <=? c) && (c <? 1114112)
            then cons c <$> decode_utf8_N r3
            else None
        | _ => None
        end
      else None
  end.

Definition decode_utf8 (body : list byte) : option (list N) :=
  decode_utf8_N (map Byte.to_N body).

(** ** SHA-256 (hashlib.sha256, FIPS 180-4) on 32-bit words carried in [N] *)

Definition mask32 : N := 4294967295.
Definition add32 (a b : N) : N := N.land (a + b) mask32.
Definition rotr (n x : N) : N :=
  N.lor (N.shiftr x n) (N.land (N.shiftl x (32 - n)) mask32).
Definition shr (n x : N) : N := N.shiftr x n.
Definition not32 (x : N) : N := N.lxor x mask32.

Definition Ch (x y z : N) : N := N.lxor (N.land x y) (N.land (not32 x) z).
Definition Maj (x y z : N) : N :=
  N.lxor (N.lxor (N.land x y) (N.land x z)) (N.land y z).
Definition bsig0 (x : N) : N := N.lxor (N.lxor (rotr 2 x) (rotr 13 x)) (rotr 22 x).
Definition bsig1 (x : N) : N := N.lxor (N.lxor (rotr 6 x) (rotr 11 x)) (rotr 25 x).
Definition ssig0 (x : N) : N := N.lxor (N.lxor (rotr 7 x) (rotr 18 x)) (shr 3 x).
Definition ssig1 (x : N) : N := N.lxor (N.lxor (rotr 17 x) (rotr 19 x)) (shr 10 x).

(** The round constants: the first 32 bits of the fractional parts of the
    cube roots of the first 64 primes. *)
Definition sha256_K : list N :=
  [
    1116352408; 1899447441; 3049323471; 3921009573;
    961987163; 1508970993; 2453635748; 2870763221;
    3624381080; 310598401; 607225278; 1426881987;
    1925078388; 2162078206; 2614888103; 3248222580;
    3835390401; 4022224774; 264347078; 604807628;
    770255983; 1249150122; 1555081692; 1996064986;
    2554220882; 2821834349; 2952996808; 3210313671;
    3336571891; 3584528711; 113926993; 338241895;
    666307205; 773529912; 1294757372; 1396182291;
    1695183700; 1986661051; 2177026350; 2456956037;
    2730485921; 2820302411; 3259730800; 3345764771;
    3516065817; 3600352804; 4094571909; 275423344;
    430227734; 506948616; 659060556; 883997877;
    958139571; 1322822218; 1537002063; 1747873779;
    1955562222; 2024104815; 2227730452; 2361852424;
    2428436474; 2756734187; 3204031479; 3329325298
  ].

(** The initial hash value: the same for the square roots of the first 8
    primes. *)
Definition sha256_H0 : list N :=
  [
    1779033703; 3144134277; 1013904242; 2773480762;
    1359893119; 2600822924; 528734635; 1541459225
  ].

Definition nthN (l : list N) (i : nat) : N := nth i l 0.

(** The message schedule is kept as a window of the last sixteen words. *)
Definition next_window (w : list N) : list N :=
  tl w ++ [add32 (add32 (ssig1 (nthN w 14)) (nthN w 9))
                 (add32 (ssig0 (nthN w 1)) (nthN w 0))].

Definition sha256_round (st : list N) (k w : N) : list N :=
  let a := nthN st 0 in let b := nthN st 1 in
  let c := nthN st 2 in let d := nthN st 3 in
  let e := nthN st 4 in let f := nthN st 5 in
  let g := nthN st 6 in let h := nthN st 7 in
  let t1 := add32 (add32 (add32 h (bsig1 e)) (add32 (Ch e f g) k)) w in
  let t2 := add32 (bsig0 a) (Maj a b c) in
  [add32 t1 t2; a; b; c; add32 d t1; e; f; g].

Fixpoint sha256_rounds (ks : list N) (w st : list N) : list N :=
  match ks with
  | [] => st
  | k :: ks' => sha256_rounds ks' (next_window w) (sha256_round st k (nthN w 0))
  end.

Fixpoint words_of_bytes (bs : list N) : list N :=
  match bs with
  | b0 :: b1 :: b2 :: b3 :: r =>
      (N.shiftl b0 24 + N.shiftl b1 16 + N.shiftl b2 8 + b3) :: words_of_bytes r
  | _ => []
  end.

Definition sha256_block (st : list N) (block : list N) : list N :=
  let st' := sha256_rounds sha256_K block st in
  map (fun p => add32 (fst p) (snd p)) (combine st st').

Fixpoint sha256_blocks (n : nat) (st : list N) (ws : list N) : list N :=
  match n with
  | O => st
  | S n' => sha256_blocks n' (sha256_block st (firstn 16 ws)) (skipn 16 ws)
  end.

Definition sha256_pad (msg : list N) : list N :=
  let len := N.of_nat (length msg) in
  let zeros := N.to_nat ((119 - len mod 64) mod 64) in
  let bits := 8 * len in
  msg ++ [128] ++ repeat 0 zeros
      ++ map (fun i => N.land (N.shiftr bits (8 * i)) 255) [7; 6; 5; 4; 3; 2; 1; 0].

(** [hashlib.sha256(data).hexdigest()] *)
Definition sha256_hexdigest (data : list byte) : list N :=
  let ws := words_of_bytes (sha256_pad (map Byte.to_N data)) in
  let st := sha256_blocks (length ws / 16)%nat sha256_H0 ws in
  concat (map (hex_fixed 8) st).

Definition ascii_bytes (s : string) : list byte := map byte_of_N (u s).


(** ** JSON-like values *)

(** What [json.loads] builds.  A [float] is carried by the text
    [float.__repr__] prints for it (['1.5'], ['1e+16'], ['nan'], ['inf'],
    ['-inf']), which identifies the float. *)
#[local] Unset Elimination Schemes.
Inductive json : Type :=
| JNull
| JBool (b : bool)
| JInt (n : Z)
| JFloat (repr : string)
| JStr (s : list N)
| JArr (items : list json)
| JObj (items : list (list N * json)).
#[local] Set Elimination Schemes.

Abbreviation dict := (list (list N * json)).

(** [isinstance(value, (dict, list))] *)
Definition is_composite (v : json) : bool :=
  match v with
  | JArr _ | JObj _ => true
  | _ => false
  end.

(** [bool(value)] *)
Definition truthy (v : json) : bool :=
  match v with
  | JNull => false
  | JBool b => b
  | JInt n => negb (Z.eqb n 0)
  | JFloat r => negb (String.eqb r "0.0" || String.eqb r "-0.0")
  | JStr s => negb (str_eqb s [])
  | JArr items => match items with [] => false | _ => true end
  | JObj items => match items with [] => false | _ => true end
  end.

(** [value[key]] and [key in value]: [None] when the key is absent. *)
Fixpoint dict_get (key : list N) (d : list (list N * json)) : option json :=
  match d with
  | [] => None
  | (k, v) :: d' => if str_eqb k key then Some v else dict_get key d'
  end.

(** [d[key] = val]: an existing key keeps its place, a new one goes last. *)
Fixpoint dict_set (key : list N) (val : json) (d : list (list N * json))
  : list (list N * json) :=
  match d with
  | [] => [(key, val)]
  | (k, v) :: d' =>
      if str_eqb k key then (k, val) :: d' else (k, v) :: dict_set key val d'
  end.


(** Well-formed values: the keys of every [dict] are pairwise distinct (a
    Python [dict] holds a key once). *)
Fixpoint json_wf (v : json) : bool :=
  match v with
  | JArr items => forallb json_wf items
  | JObj d => bool_decide (NoDup (map fst d))
              && forallb (fun kv => json_wf (snd kv)) d
  | _ => true
  end.

(** [value.get(key, dflt)]: only a [dict] has [get]. *)
Definition py_get (value : json) (key : list N) (dflt : json) : outcome json :=
  match value with
  | JObj d => Ok (default dflt (dict_get key d))
  | _ => Raise AttributeError
  end.

(** [len(value)] *)
Definition py_len (value : json) : outcome nat :=
  match value with
  | JStr s => Ok (length s)
  | JArr items => Ok (length items)
  | JObj d => Ok (length d)
  | _ => Raise TypeError
  end.

(** [value[:n]]: a [dict] cannot be sliced (the slice is looked up as a
    key: [TypeError] "unhashable type", [KeyError] from Python 3.12 on). *)
Definition py_slice_to (n : nat) (value : json) : outcome json :=
  match value with
  | JStr s => Ok (JStr (take n s))
  | JArr items => Ok (JArr (take n items))
  | JObj _ => Raise DictSliceError
  | _ => Raise TypeError
  end.

(** ** [repr] and [str] of JSON-like values *)

Section Repr.

(** [str.isprintable()] on one code point, from the Unicode database. *)
Variable isprintable : N -> bool.

Definition repr_char (quote c : N) : list N :=
  if (c =? quote) || (c =? 92) then [92; c]
  else if c =? 9 then u "\t"
  else if c =? 10 then u "\n"
  else if c =? 13 then u "\r"
  else if (c <? 32) || (c =? 127) then u "\x" ++ hex_fixed 2 c
  else if c <? 127 then [c]
  else if isprintable c then [c]
  else if c <=? 255 then u "\x" ++ hex_fixed 2 c
  else if c <=? 65535 then u "\u" ++ hex_fixed 4 c
  else u "\U" ++ hex_fixed 8 c.

(** [repr(s)] for a [str]: single quotes unless [s] has one and no double
    quote. *)
Definition repr_str (s : list N) : list N :=
  let quote := if existsb (N.eqb 39) s && negb (existsb (N.eqb 34) s)
               then 34 else 39 in
  [quote] ++ concat (map (repr_char quote) s) ++ [quote].

Fixpoint py_repr (v : json) : list N :=
  match v with
  | JNull => u "None"
  | JBool b => if b then u "True" else u "False"
  | JInt n => str_of_Z n
  | JFloat r => u r
  | JStr s => repr_str s
  | JArr items => u "[" ++ join (u ", ") (map py_repr items) ++ u "]"
  | JObj d =>
      u "{" ++ join (u ", ")
                 (map (fun kv => repr_str (fst kv) ++ u ": " ++ py_repr (snd kv)) d)
        ++ u "}"
  end.

(** [str(v)], also what an f-string prints for [{v}]. *)
Definition py_str (v : json) : list N :=
  match v with
  | JStr s => s
  | _ => py_repr v
  end.

End Repr.

(** ** [json.dumps] *)

(** One character of a string under [ensure_ascii=True]. *)
Definition escape_char (c : N) : list N :=
  if c =? 34 then [92; 34]
  else if c =? 92 then [92; 92]
  else if c =? 10 then u "\n"
  else if c =? 13 then u "\r"
  else if c =? 9 then u "\t"
  else if c =? 8 then u "\b"
  else if c =? 12 then u "\f"
  else if (32 <=? c) && (c <=? 126) then [c]
  else if c <? 65536 then u "\u" ++ hex_fixed 4 c
  else
    let v := c - 65536 in
    u "\u" ++ hex_fixed 4 (N.lor 55296 (N.land (N.shiftr v 10) 1023))
      ++ u "\u" ++ hex_fixed 4 (N.lor 56320 (N.land v 1023)).

(** [json.dumps(s)] for a [str]. *)
Definition dumps_str (s : list N) : list N :=
  [34] ++ concat (map escape_char s) ++ [34].

(** [json.dumps] of a [float]: its [repr], but for the three non-finite
    values. *)
Definition dumps_float (r : string) : list N :=
  if String.eqb r "nan" then u "NaN"
  else if String.eqb r "inf" then u "Infinity"
  else if String.eqb r "-inf" then u "-Infinity"
  else u r.

(** Lexicographic order on code points: [a <= b] on [str]. *)
Fixpoint str_leb (a b : list N) : bool :=
  match a, b with
  | [], _ => true
  | _ :: _, [] => false
  | x :: a', y :: b' => (x <? y) || ((x =? y) && str_leb a' b')
  end.

(** [sorted(items)] on entries that are already serialised, by key; the
    sort is stable. *)
Fixpoint insert_sorted (e : list N * list N) (l : list (list N * list N))
  : list (list N * list N) :=
  match l with
  | [] => [e]
  | e' :: l' =>
      if str_leb (fst e') (fst e) then e' :: insert_sorted e l' else e :: l
  end.

Definition sort_items (l : list (list N * list N)) : list (list N * list N) :=
  fold_right insert_sorted [] (rev l).

(** [json.dumps(value, sort_keys=True, ensure_ascii=True)].  The entries
    of a [dict] are sorted by key; the values are serialised before the
    sort, which does not look at them. *)
Fixpoint json_dumps (v : json) : list N :=
  match v with
  | JNull => u "null"
  | JBool b => if b then u "true" else u "false"
  | JInt n => str_of_Z n
  | JFloat r => dumps_float r
  | JStr s => dumps_str s
  | JArr items => u "[" ++ join (u ", ") (map json_dumps items) ++ u "]"
  | JObj d =>
      u "{" ++ join (u ", ")
                 (map (fun e => dumps_str (fst e) ++ u ": " ++ snd e)
                      (sort_items (map (fun kv => (fst kv, json_dumps (snd kv))) d)))
        ++ u "}"
  end.

(** ** The proxy object *)

Record ProxyServer : Type := mkProxyServer {
  target_host : list N;
  target_scheme : list N;
  show_headers : bool;
  show_event_logging : bool;
  show_tools : bool;
  cache_json : bool;
  request_count : Z;
  json_cache : gmap (list N) (list N)   (* hash -> preview string *)
}.

(** [self.json_cache[value_hash] = preview] *)
Definition set_json_cache (self : ProxyServer) (c : gmap (list N) (list N))
  : ProxyServer :=
  mkProxyServer (target_host self) (target_scheme self) (show_headers self)
                (show_event_logging self) (show_tools self) (cache_json self)
                (request_count self) c.

(** [self.request_count += 1] *)
Definition incr_request_count (self : ProxyServer) : ProxyServer :=
  mkProxyServer (target_host self) (target_scheme self) (show_headers self)
                (show_event_logging self) (show_tools self) (cache_json self)
                (request_count self + 1)%Z (json_cache self).

(** [ProxyServer(target_host, target_scheme, ...)] *)
Definition ProxyServer_init (host scheme : list N)
  (headers event_logging tools cache : bool) : ProxyServer :=
  mkProxyServer host scheme headers event_logging tools cache 0%Z ∅.

(** ** compute_hash *)

Definition compute_hash (value : json) : outcome (list N) :=
  let serialized := json_dumps value in
  match encode_utf8 serialized with
  | Some data => Ok (sha256_hexdigest data)
  | None => Raise UnicodeEncodeError
  end.

(** ** format_json *)

Definition TEXT_COLOR : list N := ESC :: u "[96m".
Definition RESET_ALL : list N := ESC :: u "[0m".

Definition is_text_field (key : list N) : bool :=
  str_eqb key (u "text") || str_eqb key (u "content").

Fixpoint format_json (obj : json) (indent : nat) (in_text_field : bool) : list N :=
  let indent_str := repeat_str (u "  ") indent in
  match obj with
  | JNull => u "null"
  | JBool b => if b then u "true" else u "false"
  | JInt n => str_of_Z n
  | JFloat r => u r
  | JStr s =>
      if in_text_field && existsb (N.eqb NL) s then
        let lines := split NL s in
        let formatted_lines := map (fun line => indent_str ++ u "  " ++ line) lines in
        [NL] ++ TEXT_COLOR ++ join [NL] formatted_lines ++ [NL] ++ indent_str ++ RESET_ALL
      else
        let escaped := dumps_str s in
        if in_text_field && (20 <? length s)%nat
        then TEXT_COLOR ++ escaped ++ RESET_ALL
        else escaped
  | JArr items =>
      match items with
      | [] => u "[]"
      | _ =>
          u "[" ++ [NL]
            ++ join (u "," ++ [NL])
                 (map (fun item => indent_str ++ u "  "
                                   ++ format_json item (S indent) in_text_field) items)
            ++ [NL] ++ indent_str ++ u "]"
      end
  | JObj d =>
      match d with
      | [] => u "{}"
      | _ =>
          u "{" ++ [NL]
            ++ join (u "," ++ [NL])
                 (map (fun kv => indent_str ++ u "  " ++ [34] ++ fst kv ++ [34] ++ u ": "
                                 ++ format_json (snd kv) (S indent) (is_text_field (fst kv))) d)
            ++ [NL] ++ indent_str ++ u "}"
      end
  end.

(** ** filter_tools *)

Definition TOOLS_HIDDEN : list N := u "... (hidden, use --show-tools to display)".

Definition filter_tools (self : ProxyServer) (json_obj : json) : json :=
  match json_obj with
  | JObj d =>
      if negb (show_tools self) && bool_decide (is_Some (dict_get (u "tools") d))
      then JObj (dict_set (u "tools") (JStr TOOLS_HIDDEN) d)
      else json_obj
  | _ => json_obj
  end.

Section Proxy.

(** [str.isprintable()] on one code point (see [Repr]). *)
Variable isprintable : N -> bool.

(** [json.loads]: the value of a JSON text, [json.JSONDecodeError] on a
    text that is not JSON, or one of the exceptions the decoder raises
    besides: [ValueError] on an integer literal over the interpreter's
    digit limit, [RecursionError] on a text nested too deep. *)
Variable json_loads : list N -> outcome json.

(** Whether the encoding of [sys.stdout] can encode a text: [print]
    raises [UnicodeEncodeError] on a text it cannot (under UTF-8, one
    with a lone surrogate). *)
Variable stdout_encodes : list N -> bool.

(** ** create_preview *)

Definition create_preview (value : json) (max_length : nat) : outcome (list N) :=
  match value with
  | JObj d =>
      match dict_get (u "type") d, dict_get (u "text") d with
      | Some _, Some text =>
          (* Looks like a message content block *)
          do n <- py_len text;
          if (40 <? n)%nat then
            do head <- py_slice_to 40 text;
            Ok (u "dict with text: '" ++ py_str isprintable head ++ u "...'")
          else Ok (u "dict with text: '" ++ py_str isprintable text ++ u "'")
      | _, _ =>
      match dict_get (u "role") d, dict_get (u "content") d with
      | Some role, Some c =>
          (* Looks like a message *)
          let content := py_str isprintable c in
          if (40 <? length content)%nat then
            Ok (u "message " ++ py_str isprintable role ++ u ": '"
                  ++ take 40 content ++ u "...'")
          else
            Ok (u "message " ++ py_str isprintable role ++ u ": '" ++ content ++ u "'")
      | _, _ =>
      match dict_get (u "name") d, dict_get (u "description") d with
      | Some name, Some _ =>
          (* Looks like a tool definition *)
          Ok (u "tool: " ++ py_str isprintable name)
      | _, _ =>
          let keys := take 3 (map fst d) in
          Ok (u "dict with keys: " ++ join (u ", ") keys
                ++ (if (3 <? length d)%nat then u "..." else []))
      end end end
  | JArr items => Ok (u "array with " ++ str_of_nat (length items) ++ u " items")
  | JStr s =>
      if (max_length <? length s)%nat
      then Ok (u "'" ++ take max_length s ++ u "...'")
      else Ok (u "'" ++ s ++ u "'")
  | _ => Ok (py_str isprintable value)
  end.

(** ** cache_and_replace *)

Definition CACHE_EXEMPT : list (list N) := [u "model"; u "max_tokens"; u "stream"].

Definition is_exempt (path key : list N) : bool :=
  str_eqb path [] && bool_decide (key ∈ CACHE_EXEMPT).

(** [f"{path}.{key}" if path else key] *)
Definition child_path (path key : list N) : list N :=
  match path with
  | [] => key
  | _ => path ++ u "." ++ key
  end.

(** [f"{path}[{i}]"] *)
Definition item_path (path : list N) (i : nat) : list N :=
  path ++ u "[" ++ str_of_nat i ++ u "]".

(** [f"... (cached: {preview})"] *)
Definition cached_marker (preview : list N) : list N :=
  u "... (cached: " ++ preview ++ u ")".

(** The loop of the [dict] branch: [result[key] = ...] for every entry, in
    order; [rec] is [self.cache_and_replace]. *)
Definition collapse_dict
  (rec : json -> list N -> ProxyServer -> outcome json * ProxyServer)
  (path : list N)
  : dict -> dict -> ProxyServer -> outcome json * ProxyServer :=
  fix loop (items result : list (list N * json)) (self : ProxyServer) :=
    match items with
    | [] => (Ok (JObj result), self)
    | (key, val) :: rest =>
        (* Don't cache certain top-level fields *)
        if is_exempt path key then loop rest (dict_set key val result) self
        else
          match rec val (child_path path key) self with
          | (Ok val', self') => loop rest (dict_set key val' result) self'
          | (Raise e, self') => (Raise e, self')
          end
    end.

(** The loop of the [list] branch: [result.append(...)] for item [i]. *)
Definition collapse_list
  (rec : json -> list N -> ProxyServer -> outcome json * ProxyServer)
  (path : list N)
  : list json -> nat -> list json -> ProxyServer -> outcome json * ProxyServer :=
  fix loop (items : list json) (i : nat) (result : list json) (self : ProxyServer) :=
    match items with
    | [] => (Ok (JArr result), self)
    | item :: rest =>
        match rec item (item_path path i) self with
        | (Ok item', self') => loop rest (S i) (result ++ [item']) self'
        | (Raise e, self') => (Raise e, self')
        end
    end.

Fixpoint cache_and_replace (value : json) (path : list N) (self : ProxyServer)
  {struct value} : outcome json * ProxyServer :=
  if negb (cache_json self) then (Ok value, self)
  else if negb (is_composite value) then (Ok value, self)
  else
    (* Compute hash for this value *)
    match compute_hash value with
    | Raise e => (Raise e, self)
    | Ok value_hash =>
        (* Check if we've seen this exact structure before *)
        match json_cache self !! value_hash with
        | Some preview => (Ok (JStr (cached_marker preview)), self)
        | None =>
            (* This is a new structure - add to cache *)
            match create_preview value 60 with
            | Raise e => (Raise e, self)
            | Ok preview =>
                let self1 := set_json_cache self (<[value_hash := preview]> (json_cache self)) in
                match value with
                | JObj d =>
                    collapse_dict (fun v p s => cache_and_replace v p s) path d [] self1
                | JArr items =>
                    collapse_list (fun v p s => cache_and_replace v p s) path items 0 [] self1
                | _ => (Ok value, self1)
                end
            end
        end
    end.

(** ** parse_streaming_response *)

(** An event record [{'event': name, 'data': payload}]; [data] is [None]
    ([JNull]) until a data line is read, then the decoded payload, or the
    raw text ([JStr]) when the payload does not decode. *)
Record event : Type := mkEvent {
  ev_event : list N;
  ev_data : json
}.

(** [events.append(current_event)] under [if current_event:] *)
Definition flush (events : list event) (current_event : option event) : list event :=
  match current_event with
  | Some e => events ++ [e]
  | None => events
  end.

(** The first loop: one pass over the lines.  A payload that is not JSON
    is kept as raw text; any other exception of [json.loads] leaves the
    loop. *)
Fixpoint collect_events (lines : list (list N)) (events : list event)
  (current_event : option event) : outcome (list event) :=
  match lines with
  | [] => Ok (flush events current_event)
  | line :: rest =>
      if startswith (u "event: ") line then
        collect_events rest (flush events current_event)
                       (Some (mkEvent (strip (drop 7 line)) JNull))
      else if startswith (u "data: ") line then
        match current_event with
        | Some e =>
            let payload := strip (drop 6 line) in
            match json_loads payload with
            | Ok v => collect_events rest events (Some (mkEvent (ev_event e) v))
            | Raise JSONDecodeError =>
                collect_events rest events (Some (mkEvent (ev_event e) (JStr payload)))
            | Raise e' => Raise e'
            end
        | None => collect_events rest events current_event
        end
      else collect_events rest events current_event
  end.

(** [value == s] for a [str] literal [s]. *)
Definition eq_str (value : json) (s : list N) : bool :=
  match value with
  | JStr t => str_eqb t s
  | _ => false
  end.

Definition is_dict (value : json) : bool :=
  match value with
  | JObj _ => true
  | _ => false
  end.

(** Extract text deltas. *)
Fixpoint extract_text_deltas (events : list event) (text_deltas : list json)
  : outcome (list json) :=
  match events with
  | [] => Ok text_deltas
  | ev :: rest =>
      if str_eqb (ev_event ev) (u "content_block_delta")
         && truthy (ev_data ev)
         && is_dict (ev_data ev)
         && match py_get (ev_data ev) (u "type") JNull with
            | Ok ty => eq_str ty (u "content_block_delta")
            | Raise _ => false
            end
      then
        do delta <- py_get (ev_data ev) (u "delta") (JObj []);
        do ty <- py_get delta (u "type") JNull;
        if eq_str ty (u "text_delta") then
          do text <- py_get delta (u "text") (JStr []);
          extract_text_deltas rest (text_deltas ++ [text])
        else extract_text_deltas rest text_deltas
      else extract_text_deltas rest text_deltas
  end.

(** [''.join(text_deltas)]: every item must be a [str]. *)
Fixpoint join_deltas (text_deltas : list json) : outcome (list N) :=
  match text_deltas with
  | [] => Ok []
  | JStr s :: rest => do r <- join_deltas rest; Ok (s ++ r)
  | _ :: _ => Raise TypeError
  end.

(** [for event in events: if cond(event): ...; break]: the first event
    the condition accepts. *)
Definition first_event (cond : event -> bool) (events : list event) : option event :=
  find cond events.

Definition fmt (v : json) : list N := py_str isprintable v.

(** Show message_start *)
Definition show_message_start (events : list event) : outcome (list (list N)) :=
  match first_event (fun ev => str_eqb (ev_event ev) (u "message_start")
                               && truthy (ev_data ev)) events with
  | None => Ok []
  | Some ev =>
      do message_data <- py_get (ev_data ev) (u "message") (JObj []);
      do model <- py_get message_data (u "model") JNull;
      do id <- py_get message_data (u "id") JNull;
      let line := u "  - message_start: model=" ++ fmt model ++ u ", id=" ++ fmt id in
      do usage <- py_get message_data (u "usage") (JObj []);
      if truthy usage then
        do input_tokens <- py_get usage (u "input_tokens") JNull;
        do output_tokens <- py_get usage (u "output_tokens") JNull;
        Ok [line; u "    usage: input_tokens=" ++ fmt input_tokens
                    ++ u ", output_tokens=" ++ fmt output_tokens]
      else Ok [line]
  end.

(** Show content_block_start *)
Definition show_content_block_start (events : list event) : outcome (list (list N)) :=
  match first_event (fun ev => str_eqb (ev_event ev) (u "content_block_start")) events with
  | None => Ok []
  | Some ev =>
      do index <- py_get (ev_data ev) (u "index") (JInt 0);
      Ok [u "  - content_block_start: index=" ++ fmt index]
  end.

(** Show merged text deltas *)
Definition show_text_deltas (text_deltas : list json) : outcome (list (list N)) :=
  match text_deltas with
  | [] => Ok []
  | _ =>
      do merged_text <- join_deltas text_deltas;
      Ok [u "  - content_block_delta (merged): " ++ [34] ++ merged_text ++ [34]]
  end.

(** Show content_block_stop, message_stop *)
Definition show_presence (name : list N) (events : list event) : list (list N) :=
  match first_event (fun ev => str_eqb (ev_event ev) name) events with
  | None => []
  | Some _ => [u "  - " ++ name]
  end.

(** Show message_delta *)
Definition show_message_delta (events : list event) : outcome (list (list N)) :=
  match first_event (fun ev => str_eqb (ev_event ev) (u "message_delta")
                               && truthy (ev_data ev)) events with
  | None => Ok []
  | Some ev =>
      do delta <- py_get (ev_data ev) (u "delta") (JObj []);
      do stop_reason <- py_get delta (u "stop_reason") JNull;
      let line := u "  - message_delta: stop_reason=" ++ fmt stop_reason in
      do usage <- py_get (ev_data ev) (u "usage") (JObj []);
      if truthy usage then
        do output_tokens <- py_get usage (u "output_tokens") JNull;
        Ok [line; u "    usage: output_tokens=" ++ fmt output_tokens]
      else Ok [line]
  end.

Definition STREAM_HEADER : list N := u "Streaming response events:".

(** The summary lines, before ['\n'.join(output)]. *)
Definition condense (events : list event) : outcome (list (list N)) :=
  do text_deltas <- extract_text_deltas events [];
  do o_start <- show_message_start events;
  do o_block <- show_content_block_start events;
  do o_text <- show_text_deltas text_deltas;
  let o_stop := show_presence (u "content_block_stop") events in
  do o_delta <- show_message_delta events;
  let o_end := show_presence (u "message_stop") events in
  Ok ([STREAM_HEADER] ++ o_start ++ o_block ++ o_text ++ o_stop ++ o_delta ++ o_end).

Definition parse_streaming_response (body_text : list N) : outcome (list N) :=
  let lines := split NL (strip body_text) in
  do events <- collect_events lines [] None;
  do output <- condense events;
  Ok (join [NL] output).

(** ** print_request, print_response *)

Definition Fore_RED : list N := ESC :: u "[31m".
Definition Fore_GREEN : list N := ESC :: u "[32m".
Definition Fore_YELLOW : list N := ESC :: u "[33m".
Definition Fore_MAGENTA : list N := ESC :: u "[35m".
Definition Fore_CYAN : list N := ESC :: u "[36m".

(** What [print_separator(char)] prints. *)
Definition separator (char : list N) : list N :=
  Fore_CYAN ++ repeat_str char 80.

(** The lines printed under [if self.show_headers:] *)
Definition header_lines (self : ProxyServer) (headers : list (list N * list N))
  : list (list N) :=
  if show_headers self
  then ([NL] ++ Fore_MAGENTA ++ u "Headers:")
         :: map (fun kv => u "  " ++ fst kv ++ u ": " ++ snd kv) headers
  else [].

Definition body_header (body : list byte) : list N :=
  [NL] ++ Fore_CYAN ++ u "Body (" ++ str_of_nat (length body) ++ u " bytes):".

Definition binary_placeholder (body : list byte) : list N :=
  u "  [Binary data: " ++ str_of_nat (length body) ++ u " bytes]".

(** What a trace writer did: its outcome, the lines it printed (one per
    call of [print] that returned) and the proxy afterwards.  The
    standard output is taken to be open, and the values to be nested
    less deep than the recursion limit of the interpreter allows the
    recursion of the methods themselves. *)
Record trace : Type := mkTrace {
  tr_result : outcome unit;
  tr_printed : list (list N);
  tr_self : ProxyServer
}.

(** The calls [print(text)] for the texts of a list, one after the other,
    after [printed]: the lines printed, and [UnicodeEncodeError] at the
    first text the stream cannot encode. *)
Fixpoint print_all (texts printed : list (list N))
  : outcome unit * list (list N) :=
  match texts with
  | [] => (Ok tt, printed)
  | text :: rest =>
      if stdout_encodes text then print_all rest (printed ++ [text])
      else (Raise UnicodeEncodeError, printed)
  end.

(** [print(text)] for the body, and the [print()] that ends the trace,
    which writes the line end alone. *)
Definition print_body (text : list N) (printed : list (list N))
  (self : ProxyServer) : trace :=
  if stdout_encodes text then mkTrace (Ok tt) (printed ++ [text; []]) self
  else mkTrace (Raise UnicodeEncodeError) printed self.

(** The body of [try: json_body = json.loads(body_text) ...], shared by
    the two writers, once the text is parsed: collapse, then filter the
    tools, then render. *)
Definition print_json_body (printed : list (list N)) (json_body : json)
  (self : ProxyServer) : trace :=
  (* Apply caching to replace repeated structures *)
  match cache_and_replace json_body [] self with
  | (Raise e, self') => mkTrace (Raise e) printed self'
  | (Ok cached_body, self') =>
      (* Then filter tools if needed *)
      let filtered_body := filter_tools self' cached_body in
      print_body (format_json filtered_body 0 false) printed self'
  end.

(** [json.loads(body_text)] and what follows it in both writers; only
    [json.JSONDecodeError] is caught. *)
Definition print_text_body (printed : list (list N)) (body_text : list N)
  (self : ProxyServer) : trace :=
  match json_loads body_text with
  | Ok json_body => print_json_body printed json_body self
  | Raise JSONDecodeError =>
      (* Not JSON, print as-is *)
      print_body body_text printed self
  | Raise e => mkTrace (Raise e) printed self
  end.

(** The four lines that open the trace of a request. *)
Definition request_head (self : ProxyServer) (timestamp method path : list N)
  : list (list N) :=
  [separator (u "=");
   Fore_GREEN ++ u "[" ++ str_of_Z (request_count self) ++ u "] REQUEST " ++ timestamp;
   separator (u "=");
   Fore_YELLOW ++ method ++ u " " ++ target_scheme self ++ u "://"
     ++ target_host self ++ path].

(** [timestamp] is what [datetime.now().strftime(...)[:-3]] gave. *)
Definition print_request (timestamp method path : list N)
  (headers : list (list N * list N)) (body : option (list byte))
  (self : ProxyServer) : trace :=
  let self := incr_request_count self in
  match print_all (request_head self timestamp method path
                     ++ header_lines self headers) [] with
  | (Raise e, printed) => mkTrace (Raise e) printed self
  | (Ok _, printed) =>
      match body with
      | Some (b :: bs) =>
          let body := b :: bs in
          match print_all [body_header body] printed with
          | (Raise e, printed) => mkTrace (Raise e) printed self
          | (Ok _, printed) =>
              match decode_utf8 body with
              | None => print_body (binary_placeholder body) printed self
              | Some body_text => print_text_body printed body_text self
              end
          end
      | _ => mkTrace (Ok tt) (printed ++ [[]]) self
      end
  end.

(** The four lines that open the trace of a response. *)
Definition response_head (self : ProxyServer) (timestamp : list N) (status : Z)
  : list (list N) :=
  let status_color := if (status <? 400)%Z then Fore_GREEN else Fore_RED in
  [separator (u "-");
   Fore_GREEN ++ u "[" ++ str_of_Z (request_count self) ++ u "] RESPONSE " ++ timestamp;
   separator (u "-");
   status_color ++ u "Status: " ++ str_of_Z status].

Definition print_response (timestamp : list N) (status : Z)
  (headers : list (list N * list N)) (body : option (list byte))
  (self : ProxyServer) : trace :=
  match print_all (response_head self timestamp status
                     ++ header_lines self headers) [] with
  | (Raise e, printed) => mkTrace (Raise e) printed self
  | (Ok _, printed) =>
      match body with
      | Some (b :: bs) =>
          let body := b :: bs in
          match print_all [body_header body] printed with
          | (Raise e, printed) => mkTrace (Raise e) printed self
          | (Ok _, printed) =>
              match decode_utf8 body with
              | None => print_body (binary_placeholder body) printed self
              | Some body_text =>
                  (* Check if this is a streaming response *)
                  if startswith (u "event: ") (strip body_text) then
                    match parse_streaming_response body_text with
                    | Ok condensed => print_body condensed printed self
                    | Raise e => mkTrace (Raise e) printed self
                    end
                  else print_text_body printed body_text self
              end
          end
      | _ => mkTrace (Ok tt) (printed ++ [[]]) self
      end
  end.

(** * Specification vocabulary *)

(** ** Induction on JSON-like values *)

Section JsonInd.
Variable P : json -> Prop.
Hypothesis Hnull : P JNull.
Hypothesis Hbool : forall b, P (JBool b).
Hypothesis Hint : forall n, P (JInt n).
Hypothesis Hfloat : forall r, P (JFloat r).
Hypothesis Hstr : forall s, P (JStr s).
Hypothesis Harr : forall items, Forall P items -> P (JArr items).
Hypothesis Hobj : forall d, Forall (fun kv => P (snd kv)) d -> P (JObj d).

Fixpoint json_ind (v : json) : P v :=
  match v with
  | JNull => Hnull
  | JBool b => Hbool b
  | JInt n => Hint n
  | JFloat r => Hfloat r
  | JStr s => Hstr s
  | JArr items =>
      Harr items
        ((fix go (l : list json) : Forall P l :=
            match l with
            | [] => @Stdlib.Lists.List.Forall_nil _ P
            | x :: l' => @Stdlib.Lists.List.Forall_cons _ P x l' (json_ind x) (go l')
            end) items)
  | JObj d =>
      Hobj d
        ((fix go (l : list (list N * json)) : Forall (fun kv => P (snd kv)) l :=
            match l with
            | [] => @Stdlib.Lists.List.Forall_nil _ _
            | kv :: l' =>
                @Stdlib.Lists.List.Forall_cons _ _ kv l' (json_ind (snd kv)) (go l')
            end) d)
  end.

End JsonInd.

(** Code points that fit in one byte of Latin-1; all of them encode. *)
Definition narrow (s : list N) : Prop := Forall (fun c => c < 256) s.

(** The digest [compute_hash] returns. *)
Definition fingerprint (value : json) : list N :=
  sha256_hexdigest (default [] (encode_utf8 (json_dumps value))).

(** The order [sorted] puts the serialised entries in. *)
Definition key_le (e1 e2 : list N * list N) : Prop :=
  str_leb (fst e1) (fst e2) = true.

(** [s'] is [s] with a larger cache: nothing else changed, and no entry of
    the cache was removed or overwritten. *)
Definition extends (s s' : ProxyServer) : Prop :=
  s' = set_json_cache s (json_cache s') /\ json_cache s ⊆ json_cache s'.

(** The children of a [dict] collapsed one after the other, the proxy
    threaded through: an exempt entry is copied and leaves the proxy as
    it is, any other value is the result of [cache_and_replace] on it. *)
Inductive collapsed_dict (path : list N)
  : dict -> ProxyServer -> dict -> ProxyServer -> Prop :=
| collapsed_dict_nil s : collapsed_dict path [] s [] s
| collapsed_dict_exempt k v d s d' s' :
    is_exempt path k = true ->
    collapsed_dict path d s d' s' ->
    collapsed_dict path ((k, v) :: d) s ((k, v) :: d') s'
| collapsed_dict_child k v v' d s s1 d' s' :
    is_exempt path k = false ->
    cache_and_replace v (child_path path k) s = (Ok v', s1) ->
    collapsed_dict path d s1 d' s' ->
    collapsed_dict path ((k, v) :: d) s ((k, v') :: d') s'.

(** The items of a [list] collapsed one after the other, from index [i]. *)
Inductive collapsed_list (path : list N)
  : list json -> nat -> ProxyServer -> list json -> ProxyServer -> Prop :=
| collapsed_list_nil i s : collapsed_list path [] i s [] s
| collapsed_list_item v v' items i s s1 items' s' :
    cache_and_replace v (item_path path i) s = (Ok v', s1) ->
    collapsed_list path items (S i) s1 items' s' ->
    collapsed_list path (v :: items) i s (v' :: items') s'.

(** [r] is a composite of the kind of [value] whose children are the
    collapsed children of [value]. *)
Definition collapsed_children (path : list N) (value : json) (s : ProxyServer)
  (r : json) (s' : ProxyServer) : Prop :=
  match value, r with
  | JObj d, JObj d' => collapsed_dict path d s d' s'
  | JArr items, JArr items' => collapsed_list path items 0 s items' s'
  | _, _ => False
  end.

(** A number, a boolean or [None]: the values [len] does not accept
    among those a [str] key can map to, besides which only [str], [list]
    and [dict] remain. *)
Definition is_unsized (v : json) : bool :=
  match v with
  | JNull | JBool _ | JInt _ | JFloat _ => true
  | _ => false
  end.

(** The keys of a mapping are distinct, at its own level. *)
Definition keys_distinct (value : json) : Prop :=
  match value with
  | JObj d => NoDup (map fst d)
  | _ => True
  end.

(** The entries the top-level loop does collapse. *)
Definition not_exempt (path : list N) (kv : list N * json) : Prop :=
  is_exempt path (fst kv) = false.

#[global] Instance not_exempt_dec path kv : Decision (not_exempt path kv).
Proof. unfold not_exempt. apply _. Defined.

(** The stream of the example: a message_start event (model "m1", id
    "msg_1"), content_block_delta events with text deltas, a message_stop
    event.  [jtext] reads a JSON text written with ['] for the double
    quote. *)
Definition jtext (s : string) : list N :=
  map (fun c => if c =? 39 then 34 else c) (u s).

Definition start_payload : list N :=
  jtext "{'type': 'message_start', 'message': {'model': 'm1', 'id': 'msg_1'}}".

Definition start_data : json :=
  JObj [(u "type", JStr (u "message_start"));
        (u "message", JObj [(u "model", JStr (u "m1")); (u "id", JStr (u "msg_1"))])].

Definition delta_payload (text : string) : list N :=
  jtext "{'type': 'content_block_delta', 'index': 0, 'delta': {'type': 'text_delta', 'text': '"
    ++ u text ++ jtext "'}}".

Definition delta_data (text : list N) : json :=
  JObj [(u "type", JStr (u "content_block_delta"));
        (u "index", JInt 0);
        (u "delta", JObj [(u "type", JStr (u "text_delta")); (u "text", JStr text)])].

Definition stop_payload : list N := jtext "{'type': 'message_stop'}".

Definition stop_data : json := JObj [(u "type", JStr (u "message_stop"))].

Definition sse_event (name : string) (payload : list N) : list N :=
  u "event: " ++ u name ++ [NL] ++ u "data: " ++ payload ++ [NL; NL].

Definition stream_example : list N :=
  sse_event "message_start" start_payload
    ++ sse_event "content_block_delta" (delta_payload "Hel")
    ++ sse_event "content_block_delta" (delta_payload "lo")
    ++ sse_event "message_stop" stop_payload.

Definition delta_event (text : list N) : event :=
  mkEvent (u "content_block_delta") (delta_data text).

(** The events of the example, with one delta event per fragment. *)
Definition example_events (fragments : list (list N)) : list event :=
  mkEvent (u "message_start") start_data
    :: map delta_event fragments ++ [mkEvent (u "message_stop") stop_data].

(** The summary of the example, for the merged text [merged]. *)
Definition example_summary (merged : list N) : list (list N) :=
  [STREAM_HEADER;
   u "  - message_start: model=m1, id=msg_1";
   u "  - content_block_delta (merged): " ++ [34] ++ merged ++ [34];
   u "  - message_stop"].

(** ** Concrete inputs *)

(** [str.isprintable()] on ASCII, where it does not depend on the Unicode
    database: the code points from the space to the tilde. *)
Definition isprintable_ascii (c : N) : bool := (32 <=? c) && (c <? 127).

(** A proxy as [main] builds it by default: cache on, tools hidden. *)
Definition proxy0 : ProxyServer :=
  ProxyServer_init (u "api.anthropic.com") (u "https") false false false true.

Definition tools_text : list N :=
  jtext "{'tools': [{'name': 'get_weather', 'description': 'd'}]}".

Definition tool_doc : json :=
  JObj [(u "name", JStr (u "get_weather")); (u "description", JStr (u "d"))].

Definition tools_doc : json := JObj [(u "tools", JArr [tool_doc])].

(** The JSON texts of the examples with the values they parse to. *)
Definition json_texts : list (list N * json) :=
  [(start_payload, start_data);
   (delta_payload "Hel", delta_data (u "Hel"));
   (delta_payload "lo", delta_data (u "lo"));
   (stop_payload, stop_data);
   (tools_text, tools_doc)].

(** [json.loads] on the texts of the examples; no other text is used, and
    the one that is not JSON, ['hello'], is not in the table. *)
Definition json_loads_table (s : list N) : outcome json :=
  match find (fun p => str_eqb (fst p) s) json_texts with
  | Some p => Ok (snd p)
  | None => Raise JSONDecodeError
  end.

(** A body that is not JSON and on which [json.loads] raises
    [ValueError]: a run of digits over the limit the interpreter puts on
    the conversion of an integer literal (4300 digits by default), then
    a letter. *)
Definition long_number_text : list N := repeat_str (u "1") 4400 ++ u "x".

Definition is_digit (c : N) : bool := (48 <=? c) && (c <=? 57).

Fixpoint leading_digits (s : list N) : nat :=
  match s with
  | c :: s' => if is_digit c then S (leading_digits s') else 0%nat
  | [] => 0%nat
  end.

(** [json.loads] on the texts of the examples and on a text that starts
    with an integer literal over the digit limit: the scanner reads the
    digits and their conversion raises [ValueError]. *)
Definition json_loads_limited (s : list N) : outcome json :=
  if (4300 <? leading_digits s)%nat then Raise ValueError
  else json_loads_table s.

(** A standard output that encodes as UTF-8: every text but one with a
    lone surrogate, or a code point past the last one, is printed. *)
Definition stdout_utf8 (s : list N) : bool :=
  match encode_utf8 s with
  | Some _ => true
  | None => false
  end.

(** [s.encode()] for an ASCII literal. *)
Definition bytes_of (s : list N) : list byte := map byte_of_N s.

(** ** Vocabulary for the further properties *)

(** [r] is [value] with some of its composite subtrees replaced by a
    back-reference string: the kind of every composite that is kept, the
    keys of a mapping with their order, and the length of a list are those
    of [value]. *)
#[local] Unset Elimination Schemes.
Inductive collapses_to : json -> json -> Prop :=
| collapses_same v : collapses_to v v
| collapses_marker v preview :
    is_composite v = true -> collapses_to v (JStr (cached_marker preview))
| collapses_list items items' :
    Forall2 collapses_to items items' -> collapses_to (JArr items) (JArr items')
| collapses_dict d d' :
    Forall2 (fun kv kv' => fst kv = fst kv' /\ collapses_to (snd kv) (snd kv')) d d' ->
    collapses_to (JObj d) (JObj d').
#[local] Set Elimination Schemes.

(** The composites [cache_and_replace] fingerprints when it finds none of
    them in the cache, in the order it meets them: [value] itself, then
    those of its children, the values of the exempt keys left out. *)
Fixpoint visited (path : list N) (value : json) : list json :=
  match value with
  | JArr items =>
      value :: (fix go (i : nat) (l : list json) : list json :=
                  match l with
                  | [] => []
                  | item :: l' => visited (item_path path i) item ++ go (S i) l'
                  end) 0%nat items
  | JObj d =>
      value :: (fix go (l : list (list N * json)) : list json :=
                  match l with
                  | [] => []
                  | kv :: l' =>
                      (if is_exempt path (fst kv) then []
                       else visited (child_path path (fst kv)) (snd kv)) ++ go l'
                  end) d
  | _ => []
  end.

Fixpoint visited_list (path : list N) (i : nat) (items : list json) : list json :=
  match items with
  | [] => []
  | item :: l' => visited (item_path path i) item ++ visited_list path (S i) l'
  end.

Fixpoint visited_dict (path : list N) (d : list (list N * json)) : list json :=
  match d with
  | [] => []
  | kv :: l' =>
      (if is_exempt path (fst kv) then []
       else visited (child_path path (fst kv)) (snd kv)) ++ visited_dict path l'
  end.


(** Every entry of the cache of [s'] is an entry of the cache of [s] or
    the fingerprint of one of [vs] with its preview. *)
Definition entries_from (vs : list json) (s s' : ProxyServer) : Prop :=
  forall h preview,
    json_cache s' !! h = Some preview ->
    json_cache s !! h = Some preview
    \/ exists v, v ∈ vs /\ h = fingerprint v /\ create_preview v 60 = Ok preview.



(** Printable ASCII: from the space to the tilde. *)
Definition plain (s : list N) : Prop := Forall (fun c => 32 <= c /\ c <= 126) s.

(** The payloads the summary steps handle: a mapping in which "delta"
    and "message", when present, are mappings, a text delta has a string
    as its text, and "usage" (in the payload and in its message) is a
    mapping or a value that counts as false. *)
Definition is_str (v : json) : bool :=
  match v with
  | JStr _ => true
  | _ => false
  end.

Definition mapping_or_falsy (v : json) : bool := is_dict v || negb (truthy v).

Definition delta_ok (delta : json) : bool :=
  match delta with
  | JObj dd =>
      negb (eq_str (default JNull (dict_get (u "type") dd)) (u "text_delta"))
      || is_str (default (JStr []) (dict_get (u "text") dd))
  | _ => false
  end.

Definition message_ok (message : json) : bool :=
  match message with
  | JObj md => mapping_or_falsy (default (JObj []) (dict_get (u "usage") md))
  | _ => false
  end.

Definition well_shaped (ev : event) : bool :=
  match ev_data ev with
  | JObj d =>
      delta_ok (default (JObj []) (dict_get (u "delta") d))
      && message_ok (default (JObj []) (dict_get (u "message") d))
      && mapping_or_falsy (default (JObj []) (dict_get (u "usage") d))
  | _ => false
  end.

(** The name an event-name line gives its record. *)
Definition event_name (line : list N) : list N := strip (drop 7 line).

(** The body header, when a writer prints one: the last of the lines it
    prints before it looks into the body. *)
Definition body_header_line (body : option (list byte)) : list (list N) :=
  match body with
  | Some (b :: bs) => [body_header (b :: bs)]
  | _ => []
  end.

(** The same value, with the entries of its mappings, at any depth, in
    another order: what two equal [dict]s built in different insertion
    orders are to each other. *)
#[local] Unset Elimination Schemes.
Inductive reordered : json -> json -> Prop :=
| reordered_scalar v : is_composite v = false -> reordered v v
| reordered_list items items' :
    Forall2 reordered items items' -> reordered (JArr items) (JArr items')
| reordered_dict d d' d2 :
    d ≡ₚ d' ->
    Forall2 (fun kv kv' => fst kv = fst kv' /\ reordered (snd kv) (snd kv')) d' d2 ->
    reordered (JObj d) (JObj d2).
#[local] Set Elimination Schemes.

(** * Properties *)

(** ** The digest on the test vectors of FIPS 180-4 *)

Example sha256_abc :
  sha256_hexdigest (ascii_bytes "abc")
  = u "ba7816bf8f01cfea414140de5dae2223b00361a396177a9cb410ff61f20015ad".
Proof. vm_compute. reflexivity. Qed.

Example sha256_empty :
  sha256_hexdigest []
  = u "e3b0c44298fc1c149afbf4c8996fb92427ae41e4649b934ca495991b7852b855".
Proof. vm_compute. reflexivity. Qed.

Example sha256_two_blocks :
  sha256_hexdigest (ascii_bytes "abcdbcdecdefdefgefghfghighijhijkijkljklmklmnlmnomnopnopq")
  = u "248d6a61d20638b8e5c026930c3e6039a33ce45964ff2167f6ecedd419db06c1".
Proof. vm_compute. reflexivity. Qed.



(** ** The serialisation is encodable: [compute_hash] never raises *)


Lemma narrow_app s t : narrow s -> narrow t -> narrow (s ++ t).
Proof. apply Forall_app_2. Qed.

Lemma narrow_u s : narrow (u s).
Proof.
  induction s as [|a s IH]; simpl; constructor; auto.
  apply N_ascii_bounded.
Qed.

Lemma narrow_concat ss : Forall narrow ss -> narrow (concat ss).
Proof.
  induction 1; simpl; [constructor | by apply narrow_app].
Qed.

Lemma narrow_join sep ss : narrow sep -> Forall narrow ss -> narrow (join sep ss).
Proof.
  intros Hsep. induction 1 as [|s ss Hs Hss IH]; simpl; [constructor|].
  destruct ss; [done|]. apply narrow_app; [done|]. by apply narrow_app.
Qed.

Lemma narrow_digits d : narrow (digits_of_uint d).
Proof. induction d; simpl; constructor; auto; lia. Qed.

Lemma narrow_str_of_Z z : narrow (str_of_Z z).
Proof.
  destruct z; simpl; unfold str_of_N; try apply narrow_digits.
  constructor; [lia | apply narrow_digits].
Qed.

Lemma hex_digit_small d : d < 16 -> hex_digit d < 256.
Proof. unfold hex_digit. intros. destruct (d <? 10); lia. Qed.

Lemma narrow_hex_fixed k n : narrow (hex_fixed k n).
Proof.
  revert n. induction k as [|k IH]; intros n; simpl; [constructor|].
  apply narrow_app; [apply IH|]. constructor; [|constructor].
  apply hex_digit_small.
  change 15 with (N.ones 4). rewrite N.land_ones.
  apply N.mod_upper_bound. discriminate.
Qed.

Lemma narrow_escape_char c : narrow (escape_char c).
Proof.
  unfold escape_char.
  repeat match goal with
         | |- context [if ?b then _ else _] => destruct b eqn:?
         end;
    repeat first [ apply narrow_hex_fixed | apply narrow_u | apply narrow_app ];
    try (repeat constructor; lia).
  constructor; [|constructor].
  apply andb_prop in Heqb6 as [_ H]. apply N.leb_le in H. lia.
Qed.

Lemma narrow_dumps_str s : narrow (dumps_str s).
Proof.
  unfold dumps_str. apply narrow_app; [repeat constructor; lia|].
  apply narrow_app; [|repeat constructor; lia].
  apply narrow_concat. apply Forall_map. apply Forall_forall.
  intros c _. apply narrow_escape_char.
Qed.

Lemma narrow_dumps_float r : narrow (dumps_float r).
Proof.
  unfold dumps_float.
  repeat match goal with
         | |- context [if ?b then _ else _] => destruct b
         end; apply narrow_u.
Qed.

Lemma Forall_insert_sorted (Q : list N * list N -> Prop) e l :
  Q e -> Forall Q l -> Forall Q (insert_sorted e l).
Proof.
  intros He. induction 1 as [|e' l He' Hl IH]; simpl.
  - by constructor.
  - destruct (str_leb (fst e') (fst e)); constructor; auto.
Qed.

Lemma Forall_sort_items (Q : list N * list N -> Prop) l :
  Forall Q l -> Forall Q (sort_items l).
Proof.
  unfold sort_items. intros H. apply Forall_rev in H.
  induction H; simpl; [constructor|]. by apply Forall_insert_sorted.
Qed.

Lemma narrow_json_dumps v : narrow (json_dumps v).
Proof.
  induction v as [| b | n | r | s | items IH | d IH] using json_ind;
    cbn [json_dumps].
  - apply narrow_u.
  - destruct b; apply narrow_u.
  - apply narrow_str_of_Z.
  - apply narrow_dumps_float.
  - apply narrow_dumps_str.
  - apply narrow_app; [apply narrow_u|]. apply narrow_app; [|apply narrow_u].
    apply narrow_join; [apply narrow_u|]. by apply Forall_map.
  - apply narrow_app; [apply narrow_u|]. apply narrow_app; [|apply narrow_u].
    apply narrow_join; [apply narrow_u|]. apply Forall_map.
    apply (Forall_impl (fun e => narrow (snd e))).
    + apply Forall_sort_items. apply Forall_map. exact IH.
    + intros e He. cbn beta. apply narrow_app; [apply narrow_dumps_str|].
      apply narrow_app; [apply narrow_u | exact He].
Qed.

Lemma encode_utf8_narrow s : narrow s -> is_Some (encode_utf8 s).
Proof.
  induction 1 as [|c s Hc Hs [bs IH]]; simpl; [by eexists|].
  rewrite IH. unfold encode_char.
  destruct (c <? 128) eqn:E1; [by eexists|].
  destruct (c <? 2048) eqn:E2; [by eexists|].
  apply N.ltb_ge in E2. lia.
Qed.


Lemma compute_hash_fingerprint value : compute_hash value = Ok (fingerprint value).
Proof.
  unfold compute_hash, fingerprint.
  destruct (encode_utf8_narrow _ (narrow_json_dumps value)) as [bs ->]. done.
Qed.

Lemma forallb_Forall {A} (f : A -> bool) l :
  forallb f l = true -> Forall (fun x => f x = true) l.
Proof.
  induction l as [|x l IH]; simpl; [constructor|].
  intros H. apply andb_prop in H as [H1 H2]. constructor; auto.
Qed.

Lemma json_wf_arr items :
  json_wf (JArr items) = true -> Forall (fun v => json_wf v = true) items.
Proof. cbn [json_wf]. apply forallb_Forall. Qed.

Lemma json_wf_obj d :
  json_wf (JObj d) = true ->
  NoDup (map fst d) /\ Forall (fun kv => json_wf (snd kv) = true) d.
Proof.
  cbn [json_wf]. intros H. apply andb_prop in H as [H1 H2]. split.
  - by apply bool_decide_eq_true in H1.
  - by apply forallb_Forall in H2.
Qed.


(** ** Sorting the entries by key *)


Lemma str_leb_total a b : str_leb a b = true \/ str_leb b a = true.
Proof.
  revert b. induction a as [|x a IH]; intros [|y b]; simpl; auto.
  destruct (N.ltb_spec x y), (N.ltb_spec y x), (N.eqb_spec x y), (N.eqb_spec y x);
    simpl; auto; try lia.
Qed.

Lemma str_leb_trans a b c :
  str_leb a b = true -> str_leb b c = true -> str_leb a c = true.
Proof.
  revert b c. induction a as [|x a IH]; intros [|y b] [|z c]; simpl; auto;
    try discriminate.
  destruct (N.ltb_spec x y), (N.ltb_spec y z), (N.ltb_spec x z),
    (N.eqb_spec x y), (N.eqb_spec y z), (N.eqb_spec x z);
    simpl; auto; try lia; try discriminate.
  apply IH.
Qed.

Lemma str_leb_antisym a b :
  str_leb a b = true -> str_leb b a = true -> a = b.
Proof.
  revert b. induction a as [|x a IH]; intros [|y b]; simpl; auto;
    try discriminate.
  destruct (N.ltb_spec x y), (N.ltb_spec y x), (N.eqb_spec x y), (N.eqb_spec y x);
    simpl; try lia; try discriminate.
  intros. subst. f_equal. by apply IH.
Qed.

Lemma insert_sorted_perm e l : insert_sorted e l ≡ₚ e :: l.
Proof.
  induction l as [|e' l IH]; simpl; [done|].
  destruct (str_leb (fst e') (fst e)); [|done].
  rewrite IH. apply perm_swap.
Qed.

Lemma insert_sorted_sorted e l :
  StronglySorted key_le l -> StronglySorted key_le (insert_sorted e l).
Proof.
  induction 1 as [|e' l Hl IH He']; simpl.
  - repeat constructor.
  - destruct (str_leb (fst e') (fst e)) eqn:E.
    + constructor; [done|]. rewrite insert_sorted_perm. by constructor.
    + assert (key_le e e') as Hee'.
      { destruct (str_leb_total (fst e) (fst e')); [done | congruence]. }
      constructor; [by constructor|]. constructor; [done|].
      eapply Forall_impl; [exact He'|].
      intros e'' H. unfold key_le in *. eauto using str_leb_trans.
Qed.

Lemma sort_items_perm l : sort_items l ≡ₚ l.
Proof.
  unfold sort_items. rewrite <- (rev_involutive l) at 2.
  generalize (rev l) as r. intros r. rewrite <- Permutation_rev.
  induction r as [|e r IH]; simpl; [done|].
  by rewrite insert_sorted_perm, IH.
Qed.

Lemma sort_items_sorted l : StronglySorted key_le (sort_items l).
Proof.
  unfold sort_items. induction (rev l) as [|e r IH]; simpl.
  - constructor.
  - by apply insert_sorted_sorted.
Qed.

Lemma NoDup_fst_inj {A B} (l : list (A * B)) x y :
  NoDup (map fst l) -> x ∈ l -> y ∈ l -> fst x = fst y -> x = y.
Proof.
  induction l as [|z l IH]; simpl; intros Hnd Hx Hy Hxy; [by inv Hx|].
  apply NoDup_cons in Hnd as [Hz Hnd].
  inv Hx; inv Hy; auto.
  - exfalso. apply Hz. rewrite Hxy. by apply list_elem_of_fmap_2.
  - exfalso. apply Hz. rewrite <- Hxy. by apply list_elem_of_fmap_2.
Qed.

(** Entries with distinct keys sort to the same list, whatever their order. *)
Lemma sort_items_order_independent l1 l2 :
  NoDup (map fst l1) -> l1 ≡ₚ l2 -> sort_items l1 = sort_items l2.
Proof.
  intros Hnd Hperm.
  apply (StronglySorted_unique_strong key_le);
    [| apply sort_items_sorted | apply sort_items_sorted
     | by rewrite !sort_items_perm ].
  intros x1 x2 H1 H2 H12 H21.
  rewrite sort_items_perm in H1. rewrite sort_items_perm, <- Hperm in H2.
  apply (NoDup_fst_inj l1); auto using str_leb_antisym.
Qed.

Lemma json_dumps_order_independent d1 d2 :
  NoDup (map fst d1) -> d1 ≡ₚ d2 -> json_dumps (JObj d1) = json_dumps (JObj d2).
Proof.
  intros Hnd Hperm. cbn [json_dumps].
  rewrite (sort_items_order_independent
             (map (fun kv => (fst kv, json_dumps (snd kv))) d1)
             (map (fun kv => (fst kv, json_dumps (snd kv))) d2)); [done| |].
  - by rewrite map_map.
  - by apply Permutation_map.
Qed.

Lemma json_dumps_reordered v1 :
  forall v2, json_wf v1 = true -> reordered v1 v2 -> json_dumps v1 = json_dumps v2.
Proof.
  induction v1 as [| b | n | f | t | items IH | d IH] using json_ind;
    intros v2 Hwf Hre; inversion Hre; subst; try done.
  - apply json_wf_arr in Hwf. cbn [json_dumps]. do 3 f_equal.
    match goal with H : Forall2 reordered _ _ |- _ => rename H into H2 end.
    clear Hre. induction H2 as [|x y l l' Hxy Hl IHl]; [done|].
    inv IH. inv Hwf. cbn [map]. f_equal; auto.
  - apply json_wf_obj in Hwf as [Hnd Hwf].
    match goal with H : d ≡ₚ _ |- _ => rename H into Hperm end.
    match goal with H : Forall2 _ _ _ |- _ => rename H into H2 end.
    rewrite (json_dumps_order_independent d d' Hnd Hperm).
    rewrite Hperm in IH, Hwf. clear Hre Hperm Hnd.
    cbn [json_dumps]. do 5 f_equal.
    induction H2 as [|x y l l' [Hk Hxy] Hl IHl]; [done|].
    inv IH. inv Hwf. cbn [map]. f_equal; [|auto].
    rewrite Hk. f_equal. auto.
Qed.

(** C4.  [compute_hash] is a function of the value alone, it never raises,
    whatever code points the strings of the value hold (every character
    outside printable ASCII is escaped, so the text always encodes), and
    two mappings with the same entries in a different insertion order have
    the same fingerprint, also when the order differs inside a nested
    mapping, at any depth. *)
Theorem compute_hash_canonical :
  (forall value : json, exists h, compute_hash value = Ok h)
  /\ (forall d1 d2 : list (list N * json),
        NoDup (map fst d1) -> d1 ≡ₚ d2 ->
        compute_hash (JObj d1) = compute_hash (JObj d2))
  /\ (forall v1 v2 : json,
        json_wf v1 = true -> reordered v1 v2 ->
        compute_hash v1 = compute_hash v2).
Proof.
  split; [|split].
  - intros value. exists (fingerprint value). apply compute_hash_fingerprint.
  - intros d1 d2 Hnd Hperm. unfold compute_hash.
    by rewrite (json_dumps_order_independent d1 d2).
  - intros v1 v2 Hwf Hre. unfold compute_hash.
    by rewrite (json_dumps_reordered v1 v2).
Qed.

(** ** The collapser and the session cache *)


Lemma extends_refl s : extends s s.
Proof. split; [by destruct s | done]. Qed.

Lemma extends_trans s1 s2 s3 : extends s1 s2 -> extends s2 s3 -> extends s1 s3.
Proof.
  intros [E1 H1] [E2 H2]. split; [|by etrans].
  rewrite E2 at 1. rewrite E1. by destruct s1.
Qed.

Lemma extends_insert s h pv :
  json_cache s !! h = None ->
  extends s (set_json_cache s (<[h := pv]> (json_cache s))).
Proof.
  intros Hh. split; [by destruct s|]. simpl. by apply insert_subseteq.
Qed.

Lemma extends_cache_json s s' : extends s s' -> cache_json s' = cache_json s.
Proof. intros [-> _]. by destruct s. Qed.

Lemma extends_show_tools s s' : extends s s' -> show_tools s' = show_tools s.
Proof. intros [-> _]. by destruct s. Qed.

Lemma extends_lookup s s' h pv :
  extends s s' -> json_cache s !! h = Some pv -> json_cache s' !! h = Some pv.
Proof. intros [_ Hsub] Hh. by eapply lookup_weaken. Qed.

(** The body of [cache_and_replace], with the digest written out. *)
Lemma cache_and_replace_eq value path self :
  cache_and_replace value path self =
  if negb (cache_json self) then (Ok value, self)
  else if negb (is_composite value) then (Ok value, self)
  else
    match json_cache self !! fingerprint value with
    | Some preview => (Ok (JStr (cached_marker preview)), self)
    | None =>
        match create_preview value 60 with
        | Raise e => (Raise e, self)
        | Ok preview =>
            let self1 := set_json_cache self
                           (<[fingerprint value := preview]> (json_cache self)) in
            match value with
            | JObj d => collapse_dict cache_and_replace path d [] self1
            | JArr items => collapse_list cache_and_replace path items 0 [] self1
            | _ => (Ok value, self1)
            end
        end
    end.
Proof.
  destruct value; cbn [cache_and_replace]; rewrite ?compute_hash_fingerprint;
    reflexivity.
Qed.

Lemma collapse_dict_extends rec path d :
  Forall (fun kv => forall p s r s', rec (snd kv) p s = (r, s') -> extends s s') d ->
  forall res s r s', collapse_dict rec path d res s = (r, s') -> extends s s'.
Proof.
  induction 1 as [|[k v] d Hv Hd IH]; intros res s r s'; simpl.
  - intros [= _ <-]. apply extends_refl.
  - destruct (is_exempt path k); [apply IH|].
    destruct (rec v (child_path path k) s) as [[v'|e] s1] eqn:E.
    + intros H. eapply extends_trans; [by eapply Hv | by eapply IH].
    + intros [= _ <-]. by eapply Hv.
Qed.

Lemma collapse_list_extends rec path items :
  Forall (fun v => forall p s r s', rec v p s = (r, s') -> extends s s') items ->
  forall i res s r s', collapse_list rec path items i res s = (r, s') -> extends s s'.
Proof.
  induction 1 as [|v items Hv Hitems IH]; intros i res s r s'; simpl.
  - intros [= _ <-]. apply extends_refl.
  - destruct (rec v (item_path path i) s) as [[v'|e] s1] eqn:E.
    + intros H. eapply extends_trans; [by eapply Hv | by eapply IH].
    + intros [= _ <-]. by eapply Hv.
Qed.

(** The collapser only adds entries to the cache, whether it returns or
    raises. *)
Lemma cache_and_replace_extends value :
  forall path self r self',
    cache_and_replace value path self = (r, self') -> extends self self'.
Proof.
  induction value as [| b | n | f | t | items IH | d IH] using json_ind;
    intros path self r self'; rewrite cache_and_replace_eq;
    destruct (cache_json self); cbn [negb is_composite];
    try (intros [= _ <-]; apply extends_refl).
  - destruct (json_cache self !! fingerprint (JArr items)) eqn:Hc;
      [intros [= _ <-]; apply extends_refl|].
    cbn [create_preview]. intros H. eapply extends_trans; [by apply extends_insert|].
    eapply collapse_list_extends; [exact IH | exact H].
  - destruct (json_cache self !! fingerprint (JObj d)) eqn:Hc;
      [intros [= _ <-]; apply extends_refl|].
    destruct (create_preview (JObj d) 60) as [pv|e];
      [|intros [= _ <-]; apply extends_refl].
    intros H. eapply extends_trans; [by apply extends_insert|].
    eapply collapse_dict_extends; [exact IH | exact H].
Qed.

(** ** What the loops of the collapser build *)

Lemma str_eqb_eq a b : str_eqb a b = true <-> a = b.
Proof. unfold str_eqb. apply bool_decide_eq_true. Qed.

Lemma str_eqb_neq a b : str_eqb a b = false <-> a <> b.
Proof. unfold str_eqb. apply bool_decide_eq_false. Qed.

Lemma dict_set_fresh key val (d : list (list N * json)) :
  key ∉ map fst d -> dict_set key val d = d ++ [(key, val)].
Proof.
  induction d as [|[k v] d IH]; simpl; intros Hk; [done|].
  apply not_elem_of_cons in Hk as [Hne Hk].
  destruct (str_eqb k key) eqn:E; [by apply str_eqb_eq in E|].
  by rewrite IH.
Qed.

Lemma dict_get_None key (d : list (list N * json)) :
  dict_get key d = None <-> key ∉ map fst d.
Proof.
  induction d as [|[k v] d IH]; simpl.
  - split; [intros _ H; inv H | done].
  - destruct (str_eqb k key) eqn:E.
    + apply str_eqb_eq in E as ->. split; [done|]. intros H. destruct H. by left.
    + apply str_eqb_neq in E. rewrite IH, not_elem_of_cons.
      split; [intros; split; [congruence | done] | by intros [_ ?]].
Qed.

Lemma dict_get_elem_of key val (d : list (list N * json)) :
  dict_get key d = Some val -> (key, val) ∈ d.
Proof.
  induction d as [|[k v] d IH]; simpl; [done|].
  destruct (str_eqb k key) eqn:E.
  - apply str_eqb_eq in E as ->. intros [= ->]. by left.
  - intros H. right. by apply IH.
Qed.

Lemma NoDup_snoc_keys (res d : list (list N * json)) k v v' :
  NoDup (map fst res ++ map fst ((k, v) :: d)) ->
  (k ∉ map fst res) /\ NoDup (map fst (res ++ [(k, v')]) ++ map fst d).
Proof.
  simpl. intros H. split.
  - apply NoDup_app in H as (_ & Hdisj & _). intros Hk.
    apply (Hdisj k Hk). by left.
  - rewrite map_app. simpl. by rewrite <- app_assoc.
Qed.

Lemma collapse_dict_collapsed path d :
  forall res s r s',
    NoDup (map fst res ++ map fst d) ->
    collapse_dict cache_and_replace path d res s = (Ok r, s') ->
    exists d', r = JObj (res ++ d') /\ collapsed_dict path d s d' s'.
Proof.
  induction d as [|[k v] d IH]; intros res s r s' Hnd; simpl.
  - intros [= <- <-]. exists []. rewrite app_nil_r. split; [done | constructor].
  - destruct (NoDup_snoc_keys res d k v v Hnd) as [Hk _].
    destruct (is_exempt path k) eqn:Hex.
    + rewrite dict_set_fresh by done. intros H.
      apply IH in H as (d' & -> & Hd'); [|by eapply NoDup_snoc_keys].
      exists ((k, v) :: d'). rewrite <- app_assoc. split; [done|].
      by constructor.
    + destruct (cache_and_replace v (child_path path k) s) as [[v'|e] s1] eqn:E;
        [|done].
      rewrite dict_set_fresh by done. intros H.
      apply IH in H as (d' & -> & Hd'); [|by eapply NoDup_snoc_keys].
      exists ((k, v') :: d'). rewrite <- app_assoc. split; [done|].
      by econstructor.
Qed.

Lemma collapse_list_collapsed path items :
  forall i res s r s',
    collapse_list cache_and_replace path items i res s = (Ok r, s') ->
    exists items', r = JArr (res ++ items') /\ collapsed_list path items i s items' s'.
Proof.
  induction items as [|v items IH]; intros i res s r s'; simpl.
  - intros [= <- <-]. exists []. rewrite app_nil_r. split; [done | constructor].
  - destruct (cache_and_replace v (item_path path i) s) as [[v'|e] s1] eqn:E;
      [|done].
    intros H. apply IH in H as (items' & -> & Hitems').
    exists (v' :: items'). rewrite <- app_assoc. split; [done|].
    by econstructor.
Qed.

Lemma collapsed_dict_keys path d s d' s' :
  collapsed_dict path d s d' s' -> map fst d' = map fst d.
Proof. induction 1; simpl; congruence. Qed.

Lemma collapsed_list_length path items i s items' s' :
  collapsed_list path items i s items' s' -> length items' = length items.
Proof. induction 1; simpl; congruence. Qed.

Lemma collapsed_dict_exempt_get path d s d' s' k :
  collapsed_dict path d s d' s' ->
  is_exempt path k = true -> dict_get k d' = dict_get k d.
Proof.
  intros H Hk. induction H as [| k0 v d s d' s' Hex H IH
                               | k0 v v' d s s1 d' s' Hex Hv H IH]; simpl; [done| |].
  - by rewrite IH.
  - destruct (str_eqb k0 k) eqn:E; [|done].
    apply str_eqb_eq in E as ->. congruence.
Qed.

(** The exempt entries take no part in the loop: without them it ends in
    the same proxy, with the other entries of the result. *)
Lemma collapsed_dict_without_exempt path d s d' s' :
  collapsed_dict path d s d' s' ->
  collapsed_dict path (filter (not_exempt path) d) s
                      (filter (not_exempt path) d') s'.
Proof.
  induction 1 as [| k v d s d' s' Hex H IH | k v v' d s s1 d' s' Hex Hv H IH].
  - constructor.
  - rewrite !filter_cons_False by (unfold not_exempt; simpl; congruence).
    exact IH.
  - rewrite !filter_cons_True by done. by econstructor.
Qed.

(** A composite that [cache_and_replace] returned from is in the cache. *)
Lemma cache_and_replace_cached value path self r self' :
  cache_json self = true -> is_composite value = true ->
  cache_and_replace value path self = (Ok r, self') ->
  is_Some (json_cache self' !! fingerprint value).
Proof.
  intros Hcj Hcomp. rewrite cache_and_replace_eq, Hcj, Hcomp. cbn [negb].
  destruct (json_cache self !! fingerprint value) as [pv|] eqn:Hc.
  - intros [= _ <-]. by rewrite Hc.
  - destruct (create_preview value 60) as [pv|e] eqn:Hp; [|done]. cbn zeta.
    set (self1 := set_json_cache self _). intros H. exists pv.
    assert (extends self1 self') as Hext.
    { destruct value; try done.
      - by eapply collapse_list_extends;
          [apply Forall_forall; intros; by eapply cache_and_replace_extends|].
      - by eapply collapse_dict_extends;
          [apply Forall_forall; intros; by eapply cache_and_replace_extends|]. }
    eapply extends_lookup; [exact Hext|]. subst self1. simpl.
    apply lookup_insert_eq.
Qed.

Lemma collapsed_dict_extends path d s d' s' :
  collapsed_dict path d s d' s' -> extends s s'.
Proof.
  induction 1; [apply extends_refl | done |].
  eapply extends_trans; [by eapply cache_and_replace_extends | done].
Qed.

Lemma collapsed_dict_child_cached path d s d' s' k v :
  collapsed_dict path d s d' s' ->
  cache_json s = true -> (k, v) ∈ d ->
  is_exempt path k = false -> is_composite v = true ->
  is_Some (json_cache s' !! fingerprint v).
Proof.
  intros H. revert k v.
  induction H as [| k0 v0 d s d' s' Hex H IH | k0 v0 v' d s s1 d' s' Hex Hv H IH];
    intros k v Hcj Hin Hk Hv'.
  - inv Hin.
  - inv Hin; [congruence | by eapply IH].
  - pose proof (cache_and_replace_extends _ _ _ _ _ Hv) as Hext.
    inv Hin.
    + destruct (cache_and_replace_cached _ _ _ _ _ Hcj Hv' Hv) as [pv Hpv].
      exists pv. eapply extends_lookup; [by eapply collapsed_dict_extends|done].
    + eapply IH; eauto. by rewrite (extends_cache_json _ _ Hext).
Qed.

Lemma json_wf_keys_distinct value : json_wf value = true -> keys_distinct value.
Proof.
  destruct value; try done. cbn [json_wf keys_distinct]. intros H.
  apply andb_prop in H as [H _]. by apply bool_decide_eq_true in H.
Qed.

(** [len(text)] fails on a number, a boolean and [None], before anything
    is put in the cache. *)
Lemma create_preview_unsized d t v max_length :
  dict_get (u "type") d = Some t -> dict_get (u "text") d = Some v ->
  is_unsized v = true ->
  create_preview (JObj d) max_length = Raise TypeError.
Proof.
  intros Ht Hv Hu. unfold create_preview. rewrite Ht, Hv.
  by destruct v.
Qed.

Lemma cache_and_replace_preview_raises value path self e :
  cache_json self = true -> is_composite value = true ->
  json_cache self !! fingerprint value = None ->
  create_preview value 60 = Raise e ->
  cache_and_replace value path self = (Raise e, self).
Proof.
  intros Hcj Hcomp Hc Hp.
  by rewrite cache_and_replace_eq, Hcj, Hcomp, Hc, Hp.
Qed.

Lemma cache_and_replace_seen value path self preview :
  cache_json self = true -> is_composite value = true ->
  json_cache self !! fingerprint value = Some preview ->
  cache_and_replace value path self = (Ok (JStr (cached_marker preview)), self).
Proof.
  intros Hcj Hcomp Hc.
  by rewrite cache_and_replace_eq, Hcj, Hcomp, Hc.
Qed.

(** What a first collapse of a composite does, when it returns. *)
Lemma cache_and_replace_new value path self r self' :
  cache_json self = true -> is_composite value = true -> keys_distinct value ->
  json_cache self !! fingerprint value = None ->
  cache_and_replace value path self = (Ok r, self') ->
  exists preview,
    create_preview value 60 = Ok preview
    /\ collapsed_children path value
         (set_json_cache self (<[fingerprint value := preview]> (json_cache self)))
         r self'
    /\ json_cache self' !! fingerprint value = Some preview.
Proof.
  intros Hcj Hcomp Hwf Hc. rewrite cache_and_replace_eq, Hcj, Hcomp, Hc.
  cbn [negb]. destruct (create_preview value 60) as [pv|e] eqn:Hp; [|done].
  cbn zeta. set (self1 := set_json_cache self _). intros H. exists pv.
  split; [done|].
  assert (json_cache self1 !! fingerprint value = Some pv) as H1
    by apply lookup_insert_eq.
  destruct value as [| | | | | items | d]; try done.
  - apply collapse_list_collapsed in H as (items' & -> & H). split; [exact H|].
    eapply extends_lookup; [|exact H1].
    clear -H. induction H; [apply extends_refl|].
    eapply extends_trans; [by eapply cache_and_replace_extends | done].
  - apply collapse_dict_collapsed in H as (d' & -> & H); [|done].
    split; [exact H|].
    eapply extends_lookup; [by eapply collapsed_dict_extends | exact H1].
Qed.

(** C10.  [create_preview] is partial: on a mapping that has a "type" key
    and a "text" key whose value is a number, a boolean or null it raises
    [TypeError], and so does [cache_and_replace] the first time it sees
    such a mapping, leaving the cache as it was. *)
Theorem create_preview_not_total (d : list (list N * json)) (t v : json) :
  dict_get (u "type") d = Some t ->
  dict_get (u "text") d = Some v ->
  is_unsized v = true ->
  (forall max_length, create_preview (JObj d) max_length = Raise TypeError)
  /\ (forall path self h,
        cache_json self = true ->
        compute_hash (JObj d) = Ok h -> json_cache self !! h = None ->
        cache_and_replace (JObj d) path self = (Raise TypeError, self)).
Proof.
  intros Ht Hv Hu. split.
  - intros. by eapply create_preview_unsized.
  - intros path self h Hcj Hh Hc.
    rewrite compute_hash_fingerprint in Hh. injection Hh as <-.
    apply cache_and_replace_preview_raises; auto.
    by eapply create_preview_unsized.
Qed.

(** C3, as amended.  With the cache enabled, a composite whose fingerprint
    is not in the cache is new: when its collapse returns, the preview was
    built from it and stored under its fingerprint, and the result is a
    composite of the same kind whose children were collapsed in order,
    except that at the top level (empty path) the values of the exempt
    keys are copied.  Collapsing the same value again right away returns
    the marker that embeds exactly that preview, visits no child and
    leaves the proxy, cache included, as it is. *)
Theorem cache_and_replace_new_then_cached
  (value : json) (path : list N) (self : ProxyServer) (h : list N)
  (r : json) (self' : ProxyServer) :
  cache_json self = true ->
  is_composite value = true ->
  json_wf value = true ->
  compute_hash value = Ok h ->
  json_cache self !! h = None ->
  cache_and_replace value path self = (Ok r, self') ->
  exists preview,
    create_preview value 60 = Ok preview
    /\ collapsed_children path value
         (set_json_cache self (<[h := preview]> (json_cache self))) r self'
    /\ json_cache self' !! h = Some preview
    /\ forall path',
         cache_and_replace value path' self'
         = (Ok (JStr (cached_marker preview)), self').
Proof.
  intros Hcj Hcomp Hwf Hh Hc H.
  rewrite compute_hash_fingerprint in Hh. injection Hh as <-.
  apply json_wf_keys_distinct in Hwf.
  destruct (cache_and_replace_new _ _ _ _ _ Hcj Hcomp Hwf Hc H)
    as (pv & Hp & Hch & Hc').
  exists pv. repeat split; try done.
  intros path'. apply cache_and_replace_seen; auto.
  by rewrite (extends_cache_json _ _ (cache_and_replace_extends _ _ _ _ _ H)).
Qed.

(** C6, as amended.  When the top-level mapping of a body is new and its
    collapse returns, the result is a mapping with the same keys in the
    same order in which every exempt key ("model", "max_tokens", "stream")
    has the value it had, and the proxy ends as the loop over the other
    entries alone leaves it: the exempt values are neither looked up in
    the cache, nor put in it, nor visited. *)
Theorem exempt_keys_copied
  (d : list (list N * json)) (self : ProxyServer) (h : list N)
  (r : json) (self' : ProxyServer) :
  cache_json self = true ->
  NoDup (map fst d) ->
  compute_hash (JObj d) = Ok h ->
  json_cache self !! h = None ->
  cache_and_replace (JObj d) [] self = (Ok r, self') ->
  exists d' preview,
    r = JObj d'
    /\ map fst d' = map fst d
    /\ (forall key, key ∈ CACHE_EXEMPT -> dict_get key d' = dict_get key d)
    /\ create_preview (JObj d) 60 = Ok preview
    /\ collapsed_dict [] (filter (not_exempt []) d)
         (set_json_cache self (<[h := preview]> (json_cache self)))
         (filter (not_exempt []) d') self'.
Proof.
  intros Hcj Hnd Hh Hc H.
  rewrite compute_hash_fingerprint in Hh. injection Hh as <-.
  assert (json_cache self !! fingerprint (JObj d) = None) as Hc' by done.
  revert H. rewrite cache_and_replace_eq, Hcj, Hc'. cbn [negb is_composite].
  destruct (create_preview (JObj d) 60) as [pv|e] eqn:Hp; [|done].
  cbn zeta. intros H.
  apply collapse_dict_collapsed in H as (d' & -> & H); [|done].
  exists d', pv. repeat split; try done.
  - by eapply collapsed_dict_keys.
  - intros key Hkey. eapply collapsed_dict_exempt_get; [exact H|].
    unfold is_exempt. by rewrite bool_decide_eq_true_2.
  - by apply collapsed_dict_without_exempt.
Qed.

(** C5, the failing input.  The document [{"type": "t", "text": 5}] has a
    single composite, and collapsing it from the empty cache raises
    [TypeError] instead of returning the document. *)
Theorem cache_and_replace_raises_on_numeric_text :
  let doc := JObj [(u "type", JStr (u "t")); (u "text", JInt 5)] in
  let self := ProxyServer_init (u "api.anthropic.com") (u "https")
                               false false false true in
  json_wf doc = true
  /\ json_cache self = ∅
  /\ cache_and_replace doc [] self = (Raise TypeError, self).
Proof.
  cbv zeta. split; [done|]. split; [done|].
  apply cache_and_replace_preview_raises; try done.
Qed.

(** ** The calls of print *)

Lemma print_all_app texts1 texts2 printed :
  print_all (texts1 ++ texts2) printed
  = match print_all texts1 printed with
    | (Ok _, printed') => print_all texts2 printed'
    | (Raise e, printed') => (Raise e, printed')
    end.
Proof.
  revert printed. induction texts1 as [|t texts1 IH]; intros printed;
    cbn [print_all app]; [done|].
  destruct (stdout_encodes t); [apply IH | done].
Qed.

Lemma print_all_ok texts printed r printed' :
  print_all texts printed = (Ok r, printed') ->
  printed' = printed ++ texts /\ forallb stdout_encodes texts = true.
Proof.
  revert printed. induction texts as [|t texts IH]; intros printed;
    cbn [print_all forallb].
  - intros [= _ <-]. by rewrite app_nil_r.
  - destruct (stdout_encodes t); [|done]. intros H.
    apply IH in H as [-> ->]. by rewrite <- app_assoc.
Qed.

Lemma print_all_encoded texts printed :
  forallb stdout_encodes texts = true ->
  print_all texts printed = (Ok tt, printed ++ texts).
Proof.
  revert printed. induction texts as [|t texts IH]; intros printed;
    cbn [print_all forallb].
  - by rewrite app_nil_r.
  - intros [-> H]%andb_prop. rewrite IH by done. by rewrite <- app_assoc.
Qed.

(** A refused text ends the calls: what was printed is a proper start of
    the texts, and the text after it is the one refused. *)
Lemma print_all_raise texts printed e printed' :
  print_all texts printed = (Raise e, printed') ->
  e = UnicodeEncodeError
  /\ exists k text,
       printed' = printed ++ take k texts
       /\ texts !! k = Some text /\ stdout_encodes text = false.
Proof.
  revert printed. induction texts as [|t texts IH]; intros printed;
    cbn [print_all]; [done|].
  destruct (stdout_encodes t) eqn:Et.
  - intros H. apply IH in H as (-> & k & text & -> & Hk & Htext).
    split; [done|]. exists (S k), text. cbn [take]. by rewrite <- app_assoc.
  - intros [= <- <-]. split; [done|]. exists 0%nat, t. by rewrite app_nil_r.
Qed.

Lemma print_request_eq timestamp method path headers body self :
  print_request timestamp method path headers body self
  = let self := incr_request_count self in
    match print_all (request_head self timestamp method path
                       ++ header_lines self headers ++ body_header_line body) [] with
    | (Raise e, printed) => mkTrace (Raise e) printed self
    | (Ok _, printed) =>
        match body with
        | Some (b :: bs) =>
            match decode_utf8 (b :: bs) with
            | None => print_body (binary_placeholder (b :: bs)) printed self
            | Some body_text => print_text_body printed body_text self
            end
        | _ => mkTrace (Ok tt) (printed ++ [[]]) self
        end
    end.
Proof.
  unfold print_request. cbv zeta.
  rewrite (app_assoc (request_head _ _ _ _)), !print_all_app.
  destruct (print_all _ []) as [[r|e] printed0]; [|done].
  destruct (print_all _ printed0) as [[r'|e] printed]; [|done].
  destruct body as [[|b bs]|]; cbn [body_header_line print_all]; done.
Qed.

Lemma print_response_eq timestamp status headers body self :
  print_response timestamp status headers body self
  = match print_all (response_head self timestamp status
                       ++ header_lines self headers ++ body_header_line body) [] with
    | (Raise e, printed) => mkTrace (Raise e) printed self
    | (Ok _, printed) =>
        match body with
        | Some (b :: bs) =>
            match decode_utf8 (b :: bs) with
            | None => print_body (binary_placeholder (b :: bs)) printed self
            | Some body_text =>
                if startswith (u "event: ") (strip body_text) then
                  match parse_streaming_response body_text with
                  | Ok condensed => print_body condensed printed self
                  | Raise e => mkTrace (Raise e) printed self
                  end
                else print_text_body printed body_text self
            end
        | _ => mkTrace (Ok tt) (printed ++ [[]]) self
        end
    end.
Proof.
  unfold print_response.
  rewrite (app_assoc (response_head _ _ _)), !print_all_app.
  destruct (print_all _ []) as [[r|e] printed0]; [|done].
  destruct (print_all _ printed0) as [[r'|e] printed]; [|done].
  destruct body as [[|b bs]|]; cbn [body_header_line print_all]; done.
Qed.

(** A writer that returns on a body that decodes has printed its head
    lines and the body header, and gone on with the text. *)
Lemma print_request_returns timestamp method path headers b bs self body_text :
  decode_utf8 (b :: bs) = Some body_text ->
  tr_result (print_request timestamp method path headers (Some (b :: bs)) self)
  = Ok tt ->
  exists head,
    print_request timestamp method path headers (Some (b :: bs)) self
    = print_text_body (head ++ [body_header (b :: bs)]) body_text
                      (incr_request_count self).
Proof.
  intros Hd. rewrite print_request_eq. cbv zeta. rewrite Hd.
  destruct (print_all _ []) as [[r|e] printed] eqn:E; [|done].
  apply print_all_ok in E as [-> _]. intros _. cbn [body_header_line app].
  eexists. by rewrite app_assoc.
Qed.

Lemma print_response_returns timestamp status headers b bs self body_text :
  decode_utf8 (b :: bs) = Some body_text ->
  startswith (u "event: ") (strip body_text) = false ->
  tr_result (print_response timestamp status headers (Some (b :: bs)) self)
  = Ok tt ->
  exists head,
    print_response timestamp status headers (Some (b :: bs)) self
    = print_text_body (head ++ [body_header (b :: bs)]) body_text self.
Proof.
  intros Hd Hs. rewrite print_response_eq. rewrite Hd, Hs.
  destruct (print_all _ []) as [[r|e] printed] eqn:E; [|done].
  apply print_all_ok in E as [-> _]. intros _. cbn [body_header_line app].
  eexists. by rewrite app_assoc.
Qed.

Lemma print_body_returns text printed self :
  tr_result (print_body text printed self) = Ok tt ->
  print_body text printed self = mkTrace (Ok tt) (printed ++ [text; []]) self.
Proof. unfold print_body. by destruct (stdout_encodes text). Qed.

Lemma print_json_body_returns printed json_body self :
  tr_result (print_json_body printed json_body self) = Ok tt ->
  exists r self',
    cache_and_replace json_body [] self = (Ok r, self')
    /\ print_json_body printed json_body self
       = mkTrace (Ok tt)
                 (printed ++ [format_json (filter_tools self' r) 0 false; []]) self'.
Proof.
  unfold print_json_body.
  destruct (cache_and_replace json_body [] self) as [[r|e] self']; [|done].
  intros H. exists r, self'. split; [done|]. by apply print_body_returns.
Qed.

(** ** The tools filter runs after the collapser *)

Lemma filter_tools_hidden self d :
  show_tools self = false -> is_Some (dict_get (u "tools") d) ->
  filter_tools self (JObj d)
  = JObj (dict_set (u "tools") (JStr TOOLS_HIDDEN) d).
Proof.
  intros Hst Hd. unfold filter_tools. rewrite Hst. cbn [negb andb].
  by rewrite bool_decide_eq_true_2.
Qed.

Lemma dict_get_is_Some key (d : list (list N * json)) :
  is_Some (dict_get key d) <-> key ∈ map fst d.
Proof.
  rewrite <- not_eq_None_Some, dict_get_None.
  split; [apply dec_stable | auto].
Qed.

(** What the collapser and the filter make of a top-level mapping with a
    "tools" key, in the three states the proxy can be in. *)
Lemma collapse_then_filter d tools_value self r self' :
  show_tools self = false ->
  NoDup (map fst d) ->
  dict_get (u "tools") d = Some tools_value ->
  cache_and_replace (JObj d) [] self = (Ok r, self') ->
  (forall preview,
      cache_json self = true ->
      json_cache self !! fingerprint (JObj d) = Some preview ->
      r = JStr (cached_marker preview) /\ self' = self
      /\ filter_tools self' r = r)
  /\ (cache_json self = false ->
      r = JObj d /\ self' = self
      /\ filter_tools self' r = JObj (dict_set (u "tools") (JStr TOOLS_HIDDEN) d))
  /\ (cache_json self = true ->
      json_cache self !! fingerprint (JObj d) = None ->
      exists d',
        r = JObj d' /\ map fst d' = map fst d
        /\ filter_tools self' r = JObj (dict_set (u "tools") (JStr TOOLS_HIDDEN) d')
        /\ (is_composite tools_value = true ->
            is_Some (json_cache self' !! fingerprint tools_value))).
Proof.
  intros Hst Hnd Htools E.
  pose proof (cache_and_replace_extends _ _ _ _ _ E) as Hext.
  assert (show_tools self' = false) as Hst'
    by (by rewrite (extends_show_tools _ _ Hext)).
  assert (is_Some (dict_get (u "tools") d)) as Hsome by (by rewrite Htools).
  split; [|split].
  - intros preview Hcj Hc.
    rewrite (cache_and_replace_seen (JObj d) [] self preview Hcj eq_refl Hc) in E.
    by injection E as <- <-.
  - intros Hcj. rewrite cache_and_replace_eq, Hcj in E. cbn [negb] in E.
    injection E as <- <-. split; [done|]. split; [done|].
    by apply filter_tools_hidden.
  - intros Hcj Hc.
    destruct (cache_and_replace_new (JObj d) [] self r self') as (pv & Hp & Hch & _);
      auto.
    destruct r as [| | | | | |d']; try done. cbn [collapsed_children] in Hch.
    exists d'. split; [done|].
    pose proof (collapsed_dict_keys _ _ _ _ _ Hch) as Hkeys.
    split; [done|]. split.
    + apply filter_tools_hidden; [done|].
      apply dict_get_is_Some. rewrite Hkeys. by apply dict_get_is_Some.
    + intros Hcomp.
      eapply (collapsed_dict_child_cached _ _ _ _ _ (u "tools") tools_value Hch);
        [exact Hcj | by apply dict_get_elem_of | done | done].
Qed.

(** C1, as amended.  With show-tools off, a body (not an event stream)
    that parses to a top-level mapping with a "tools" key is collapsed
    first, tools value included, and the filter runs on what the
    collapser returns.  When the writer returns, the line it printed
    after the body header renders that result, in one of three ways.
    The cache is on and the body was seen before: the result is the
    back-reference string of the whole body, printed as it is, with no
    placeholder, and the proxy is as it was.  The cache is off: the
    body is rendered with the placeholder under "tools", and the proxy is
    as it was.  The cache is on and the body is new: the collapsed
    mapping, which has the keys of the body in their order, is rendered
    with the placeholder under "tools", and the fingerprint of the
    original tools value, when it is composite, is in the cache. *)
Theorem tools_hidden_after_collapse
  (timestamp method path : list N) (status : Z)
  (headers : list (list N * list N)) (body : list byte) (text : list N)
  (d : list (list N * json)) (tools_value : json)
  (self before : ProxyServer) (tr : trace) :
  show_tools self = false ->
  body <> [] ->
  decode_utf8 body = Some text ->
  json_loads text = Ok (JObj d) ->
  NoDup (map fst d) ->
  dict_get (u "tools") d = Some tools_value ->
  (tr = print_request timestamp method path headers (Some body) self
   /\ before = incr_request_count self)
  \/ (tr = print_response timestamp status headers (Some body) self
      /\ before = self
      /\ startswith (u "event: ") (strip text) = false) ->
  tr_result tr = Ok tt ->
  exists r head h,
    cache_and_replace (JObj d) [] before = (Ok r, tr_self tr)
    /\ tr_printed tr
       = head ++ [body_header body; format_json (filter_tools before r) 0 false; []]
    /\ compute_hash (JObj d) = Ok h
    /\ (forall preview,
          cache_json before = true ->
          json_cache before !! h = Some preview ->
          r = JStr (cached_marker preview)
          /\ filter_tools before r = r
          /\ tr_self tr = before)
    /\ (cache_json before = false ->
        filter_tools before r
        = JObj (dict_set (u "tools") (JStr TOOLS_HIDDEN) d)
        /\ tr_self tr = before)
    /\ (cache_json before = true ->
        json_cache before !! h = None ->
        exists d',
          r = JObj d'
          /\ map fst d' = map fst d
          /\ filter_tools before r
             = JObj (dict_set (u "tools") (JStr TOOLS_HIDDEN) d')
          /\ (is_composite tools_value = true ->
              exists ht,
                compute_hash tools_value = Ok ht
                /\ is_Some (json_cache (tr_self tr) !! ht))).
Proof.
  intros Hst Hbody Hdec Hloads Hnd Htools Hwriter Hres.
  destruct body as [|b bs]; [done|].
  assert (show_tools before = false
          /\ exists head,
               tr = print_json_body (head ++ [body_header (b :: bs)]) (JObj d) before)
    as [Hst' [head Htr]].
  { destruct Hwriter as [[-> ->]|(-> & -> & Hs)].
    - split; [done|].
      destruct (print_request_returns _ _ _ _ _ _ _ _ Hdec Hres) as [head ->].
      exists head. unfold print_text_body. by rewrite Hloads.
    - split; [done|].
      destruct (print_response_returns _ _ _ _ _ _ _ Hdec Hs Hres) as [head ->].
      exists head. unfold print_text_body. by rewrite Hloads. }
  subst tr.
  destruct (print_json_body_returns _ _ _ Hres) as (r & self' & E & ->).
  cbn [tr_self tr_printed].
  destruct (collapse_then_filter d tools_value before r self' Hst' Hnd Htools E)
    as (Hseen & Hoff & Hnew).
  assert (filter_tools self' r = filter_tools before r) as Hf.
  { unfold filter_tools.
    by rewrite (extends_show_tools _ _ (cache_and_replace_extends _ _ _ _ _ E)). }
  exists r, head, (fingerprint (JObj d)).
  split; [done|]. split; [by rewrite Hf, <- app_assoc|].
  split; [apply compute_hash_fingerprint|]. split; [|split].
  - intros preview Hcj Hc. destruct (Hseen preview Hcj Hc) as (-> & -> & _).
    done.
  - intros Hcj. destruct (Hoff Hcj) as (-> & -> & H). done.
  - intros Hcj Hc. destruct (Hnew Hcj Hc) as (d' & -> & Hkeys & H & Hcomp).
    exists d'. rewrite <- Hf. split; [done|]. split; [done|]. split; [done|].
    intros Hc'. exists (fingerprint tools_value).
    split; [apply compute_hash_fingerprint | by apply Hcomp].
Qed.

(** ** The renderer *)

Lemma split_cons c s : exists p ps, split c s = p :: ps.
Proof.
  induction s as [|x s (p & ps & IH)]; simpl; [by eexists _, _|].
  destruct (x =? c); [by eexists _, _|]. rewrite IH. by eexists _, _.
Qed.

(** Splitting at the line breaks and joining again loses nothing. *)
Lemma join_split c s : join [c] (split c s) = s.
Proof.
  induction s as [|x s IH]; simpl; [done|].
  destruct (split_cons c s) as (p & ps & E). rewrite E in *.
  destruct (N.eqb_spec x c) as [->|Hne].
  - change (join [c] ([] :: p :: ps)) with ([c] ++ join [c] (p :: ps)).
    by rewrite IH.
  - rewrite <- IH. by destruct ps.
Qed.

Lemma existsb_eqb_elem_of c (s : list N) : c ∈ s -> existsb (N.eqb c) s = true.
Proof.
  intros H. apply existsb_exists. exists c.
  split; [by apply list_elem_of_In | apply N.eqb_refl].
Qed.

Lemma is_text_field_spec key :
  is_text_field key = true <-> key = u "text" \/ key = u "content".
Proof.
  unfold is_text_field. rewrite orb_true_iff, !str_eqb_eq. done.
Qed.

Lemma is_text_field_decide key :
  is_text_field key = bool_decide (key = u "text" \/ key = u "content").
Proof.
  destruct (is_text_field key) eqn:E; symmetry.
  - apply bool_decide_eq_true_2. by apply is_text_field_spec.
  - apply bool_decide_eq_false_2. rewrite <- is_text_field_spec. congruence.
Qed.

(** C7.  In a mapping every entry is rendered with a text-field flag of
    its own, computed from the key of that entry alone (set exactly for
    "text" and "content"), whatever the other keys are and whatever flag
    the mapping itself was rendered with; a string with a line break
    rendered with the flag set is laid out line by line, each line
    indented and otherwise as it is in the string; so
    [{"text": "line1\nline2"}] shows line1 and line2 on two lines, also
    when "text" is not the first key, where any other key shows the
    escaped string. *)
Theorem format_json_text_field :
  (forall d indent b1 b2,
      format_json (JObj d) indent b1 = format_json (JObj d) indent b2)
  /\ (forall entry d indent b,
        format_json (JObj (entry :: d)) indent b
        = u "{" ++ [NL]
            ++ join (u "," ++ [NL])
                 (map (fun kv =>
                         repeat_str (u "  ") indent ++ u "  "
                           ++ [34] ++ fst kv ++ [34] ++ u ": "
                           ++ format_json (snd kv) (S indent)
                                (bool_decide (fst kv = u "text" \/ fst kv = u "content")))
                      (entry :: d))
            ++ [NL] ++ repeat_str (u "  ") indent ++ u "}")
  /\ (forall s indent,
        NL ∈ s ->
        format_json (JStr s) indent true
        = [NL] ++ TEXT_COLOR
            ++ join [NL] (map (fun line => repeat_str (u "  ") indent ++ u "  " ++ line)
                              (split NL s))
            ++ [NL] ++ repeat_str (u "  ") indent ++ RESET_ALL
        /\ join [NL] (split NL s) = s)
  /\ format_json (JObj [(u "text", JStr (u "line1" ++ [NL] ++ u "line2"))]) 0 false
     = u "{" ++ [NL]
         ++ u "  " ++ [34] ++ u "text" ++ [34] ++ u ": " ++ [NL]
         ++ TEXT_COLOR ++ u "    line1" ++ [NL]
         ++ u "    line2" ++ [NL]
         ++ u "  " ++ RESET_ALL ++ [NL]
         ++ u "}"
  /\ format_json (JObj [(u "type", JStr (u "text"));
                        (u "text", JStr (u "line1" ++ [NL] ++ u "line2"))]) 0 false
     = u "{" ++ [NL]
         ++ u "  " ++ [34] ++ u "type" ++ [34] ++ u ": "
         ++ [34] ++ u "text" ++ [34] ++ u "," ++ [NL]
         ++ u "  " ++ [34] ++ u "text" ++ [34] ++ u ": " ++ [NL]
         ++ TEXT_COLOR ++ u "    line1" ++ [NL]
         ++ u "    line2" ++ [NL]
         ++ u "  " ++ RESET_ALL ++ [NL]
         ++ u "}"
  /\ format_json (JObj [(u "note", JStr (u "line1" ++ [NL] ++ u "line2"))]) 0 false
     = u "{" ++ [NL]
         ++ u "  " ++ [34] ++ u "note" ++ [34] ++ u ": "
         ++ [34] ++ u "line1\nline2" ++ [34] ++ [NL]
         ++ u "}".
Proof.
  split; [|split; [|split; [|split; [|split]]]].
  - intros d indent b1 b2. destruct d; reflexivity.
  - intros entry d indent b. cbn [format_json].
    do 4 f_equal. apply map_ext. intros kv.
    by rewrite is_text_field_decide.
  - intros s indent Hs. split; [|apply join_split].
    cbn [format_json]. by rewrite existsb_eqb_elem_of.
  - vm_compute. reflexivity.
  - vm_compute. reflexivity.
  - vm_compute. reflexivity.
Qed.

(** ** The trace writers on bodies that do not parse *)

Lemma print_text_body_raises printed body_text self e :
  json_loads body_text = Raise e -> e <> JSONDecodeError ->
  print_text_body printed body_text self = mkTrace (Raise e) printed self.
Proof. unfold print_text_body. intros -> He. by destruct e. Qed.

(** C9, the failing inputs.  Around [json.loads] the writers catch
    [json.JSONDecodeError] alone.  On a body that decodes as text and on
    which [json.loads] raises another exception (the [ValueError] of an
    integer literal over the digit limit, the [RecursionError] of a text
    nested too deep), both writers raise that exception once the lines
    before the body are printed: the last line printed is the body
    header, and the text is not printed. *)
Theorem body_fallback_misses_exceptions
  (timestamp method path : list N) (status : Z)
  (headers : list (list N * list N)) (body : list byte) (text : list N)
  (e : exn) (self : ProxyServer) :
  body <> [] ->
  decode_utf8 body = Some text ->
  json_loads text = Raise e ->
  e <> JSONDecodeError ->
  (let tr := print_request timestamp method path headers (Some body) self in
   forallb stdout_encodes
     (request_head (incr_request_count self) timestamp method path
        ++ header_lines (incr_request_count self) headers
        ++ [body_header body]) = true ->
   tr_result tr = Raise e
   /\ last (tr_printed tr) = Some (body_header body))
  /\ (let tr := print_response timestamp status headers (Some body) self in
      startswith (u "event: ") (strip text) = false ->
      forallb stdout_encodes
        (response_head self timestamp status
           ++ header_lines self headers ++ [body_header body]) = true ->
      tr_result tr = Raise e
      /\ last (tr_printed tr) = Some (body_header body)).
Proof.
  intros Hbody Hdec Hloads He. destruct body as [|b bs]; [done|]. split.
  - cbv zeta. intros Henc. rewrite print_request_eq. cbv zeta.
    cbn [body_header_line]. rewrite (print_all_encoded _ _ Henc), Hdec.
    rewrite (print_text_body_raises _ _ _ _ Hloads He).
    cbn [tr_result tr_printed app]. split; [done|].
    by rewrite !app_assoc, last_snoc.
  - cbv zeta. intros Hev Henc. rewrite print_response_eq.
    cbn [body_header_line]. rewrite (print_all_encoded _ _ Henc), Hdec, Hev.
    rewrite (print_text_body_raises _ _ _ _ Hloads He).
    cbn [tr_result tr_printed app]. split; [done|].
    by rewrite !app_assoc, last_snoc.
Qed.

(** ** The stream condenser *)

(** C2, the failing input.  An event-name line for content_block_start
    with no data line: the record keeps [None] as its data, and the
    summary step calls [get] on it. *)
Theorem parse_streaming_response_raises_without_data :
  parse_streaming_response (u "event: content_block_start") = Raise AttributeError.
Proof. vm_compute. reflexivity. Qed.

(** The same happens when the payload of a message_start event did not
    decode and was kept as raw text. *)
Lemma parse_streaming_response_raises_on_raw_payload :
  json_loads (u "oops") = Raise JSONDecodeError ->
  parse_streaming_response (u "event: message_start" ++ [NL] ++ u "data: oops")
  = Raise AttributeError.
Proof.
  intros H. vm_compute in H. unfold parse_streaming_response.
  match goal with
  | |- context [collect_events ?l [] None] =>
      replace (collect_events l [] None)
        with (Ok [mkEvent (u "message_start") (JStr (u "oops"))])
  end; [vm_compute; reflexivity|].
  vm_compute. rewrite H. reflexivity.
Qed.

Lemma find_app_None {A} (f : A -> bool) l1 l2 :
  find f l1 = None -> find f (l1 ++ l2) = find f l2.
Proof.
  induction l1 as [|x l1 IH]; simpl; [done|]. destruct (f x); [done | exact IH].
Qed.

Lemma find_map_None {A B} (f : B -> bool) (g : A -> B) l :
  (forall x, f (g x) = false) -> find f (map g l) = None.
Proof.
  intros H. induction l as [|x l IH]; simpl; [done|]. by rewrite H.
Qed.

Lemma extract_text_deltas_fragments fragments rest acc :
  extract_text_deltas (map delta_event fragments ++ rest) acc
  = extract_text_deltas rest (acc ++ map JStr fragments).
Proof.
  revert acc. induction fragments as [|t ts IH]; intros acc; simpl map.
  - by rewrite app_nil_r.
  - change (extract_text_deltas ((delta_event t :: map delta_event ts) ++ rest) acc)
      with (extract_text_deltas (map delta_event ts ++ rest) (acc ++ [JStr t])).
    rewrite IH. by rewrite <- app_assoc.
Qed.

Lemma join_deltas_strs fragments : join_deltas (map JStr fragments) = Ok (concat fragments).
Proof.
  induction fragments as [|t ts IH]; simpl; [done|]. by rewrite IH.
Qed.

Lemma find_cons_false {A} (f : A -> bool) x l :
  f x = false -> find f (x :: l) = find f l.
Proof. intros H. simpl. by rewrite H. Qed.

Lemma first_event_example cond fragments :
  cond (mkEvent (u "message_start") start_data) = false ->
  (forall t, cond (delta_event t) = false) ->
  first_event cond (example_events fragments)
  = first_event cond [mkEvent (u "message_stop") stop_data].
Proof.
  intros Hstart Hdelta. unfold first_event, example_events.
  rewrite find_cons_false by done. apply find_app_None. by apply find_map_None.
Qed.

(** Any number of text deltas gives one merged line. *)
Lemma condense_fragments fragments :
  fragments <> [] ->
  condense (example_events fragments) = Ok (example_summary (concat fragments)).
Proof.
  intros Hne. unfold condense.
  assert (extract_text_deltas (example_events fragments) []
          = Ok (map JStr fragments)) as ->.
  { change (extract_text_deltas (example_events fragments) [])
      with (extract_text_deltas
              (map delta_event fragments ++ [mkEvent (u "message_stop") stop_data]) []).
    by rewrite extract_text_deltas_fragments. }
  cbn [obind].
  assert (show_message_start (example_events fragments)
          = Ok [u "  - message_start: model=m1, id=msg_1"]) as -> by reflexivity.
  cbn [obind].
  assert (show_content_block_start (example_events fragments) = Ok []) as ->.
  { unfold show_content_block_start. by rewrite first_event_example. }
  cbn [obind].
  assert (show_presence (u "content_block_stop") (example_events fragments) = [])
    as ->.
  { unfold show_presence. by rewrite first_event_example. }
  assert (show_message_delta (example_events fragments) = Ok []) as ->.
  { unfold show_message_delta. by rewrite first_event_example. }
  assert (show_presence (u "message_stop") (example_events fragments)
          = [u "  - message_stop"]) as ->.
  { unfold show_presence. by rewrite first_event_example. }
  assert (show_text_deltas (map JStr fragments)
          = Ok [u "  - content_block_delta (merged): " ++ [34]
                  ++ concat fragments ++ [34]]) as ->.
  { unfold show_text_deltas. rewrite join_deltas_strs. by destruct fragments. }
  reflexivity.
Qed.

(** One line of the event stream at a time. *)
Lemma collect_events_event line rest events current_event :
  startswith (u "event: ") line = true ->
  collect_events (line :: rest) events current_event
  = collect_events rest (flush events current_event)
      (Some (mkEvent (strip (drop 7 line)) JNull)).
Proof. intros H. cbn [collect_events]. by rewrite H. Qed.

Lemma collect_events_data line rest events e payload data :
  startswith (u "event: ") line = false ->
  startswith (u "data: ") line = true ->
  strip (drop 6 line) = payload ->
  json_loads payload = Ok data ->
  collect_events (line :: rest) events (Some e)
  = collect_events rest events (Some (mkEvent (ev_event e) data)).
Proof. intros H1 H2 <- H3. cbn [collect_events]. by rewrite H1, H2, H3. Qed.

Lemma collect_events_other line rest events current_event :
  startswith (u "event: ") line = false ->
  startswith (u "data: ") line = false ->
  collect_events (line :: rest) events current_event
  = collect_events rest events current_event.
Proof. intros H1 H2. cbn [collect_events]. by rewrite H1, H2. Qed.

(** C8.  The stream of the example (message_start for model "m1" and id
    "msg_1", text deltas "Hel" and "lo", message_stop) condenses to four
    lines, in this order: the header, the message_start line with "m1"
    and "msg_1", one merged delta line with exactly "Hello", and the
    message_stop line.  The merged line is a single one for any number of
    text deltas. *)
Theorem stream_example_condensed :
  json_loads start_payload = Ok start_data ->
  json_loads (delta_payload "Hel") = Ok (delta_data (u "Hel")) ->
  json_loads (delta_payload "lo") = Ok (delta_data (u "lo")) ->
  json_loads stop_payload = Ok stop_data ->
  parse_streaming_response stream_example
  = Ok (join [NL] (example_summary (u "Hello")))
  /\ forall fragments,
       fragments <> [] ->
       condense (example_events fragments)
       = Ok (example_summary (concat fragments)).
Proof.
  intros Hstart Hhel Hlo Hstop. split; [|apply condense_fragments].
  unfold parse_streaming_response.
  assert (collect_events (split NL (strip stream_example)) [] None
          = Ok (example_events [u "Hel"; u "lo"])) as ->.
  { set (lines := split NL (strip stream_example)). vm_compute in lines.
    subst lines.
    rewrite collect_events_event by (vm_compute; reflexivity).
    rewrite (collect_events_data _ _ _ _ start_payload start_data)
      by first [exact Hstart | vm_compute; reflexivity].
    rewrite collect_events_other by (vm_compute; reflexivity).
    rewrite collect_events_event by (vm_compute; reflexivity).
    rewrite (collect_events_data _ _ _ _ (delta_payload "Hel") (delta_data (u "Hel")))
      by first [exact Hhel | vm_compute; reflexivity].
    rewrite collect_events_other by (vm_compute; reflexivity).
    rewrite collect_events_event by (vm_compute; reflexivity).
    rewrite (collect_events_data _ _ _ _ (delta_payload "lo") (delta_data (u "lo")))
      by first [exact Hlo | vm_compute; reflexivity].
    rewrite collect_events_other by (vm_compute; reflexivity).
    rewrite collect_events_event by (vm_compute; reflexivity).
    rewrite (collect_events_data _ _ _ _ stop_payload stop_data)
      by first [exact Hstop | vm_compute; reflexivity].
    vm_compute. reflexivity. }
  cbn [obind]. by rewrite condense_fragments.
Qed.

(** * Further properties *)

(** ** The collapser *)

Lemma visited_arr path items :
  visited path (JArr items) = JArr items :: visited_list path 0 items.
Proof.
  cbn [visited]. f_equal. generalize 0%nat.
  induction items as [|x l IH]; intros i; cbn [visited_list]; [done|].
  by rewrite IH.
Qed.

Lemma visited_obj path d :
  visited path (JObj d) = JObj d :: visited_dict path d.
Proof.
  cbn [visited]. f_equal.
  induction d as [|kv l IH]; cbn [visited_dict]; [done|]. by rewrite IH.
Qed.

(** X1.  Whatever [cache_and_replace] does, return or raise, the proxy it
    leaves differs from the one it got by the cache at most, and every
    entry the cache had is still there with the preview it had: nothing is
    evicted or overwritten. *)
Theorem cache_only_grows (value : json) (path : list N) (self : ProxyServer) :
  let self' := snd (cache_and_replace value path self) in
  self' = set_json_cache self (json_cache self')
  /\ forall h preview,
       json_cache self !! h = Some preview -> json_cache self' !! h = Some preview.
Proof.
  cbv zeta.
  destruct (cache_and_replace value path self) as [r self'] eqn:E.
  apply cache_and_replace_extends in E as [E Hsub]. cbn [snd].
  split; [exact E|]. intros h pv Hh. by eapply lookup_weaken.
Qed.

Lemma collapsed_dict_collapses path d s d' s' :
  Forall (fun kv => forall p s0 r s1,
              cache_and_replace (snd kv) p s0 = (Ok r, s1) -> collapses_to (snd kv) r) d ->
  collapsed_dict path d s d' s' ->
  Forall2 (fun kv kv' => fst kv = fst kv' /\ collapses_to (snd kv) (snd kv')) d d'.
Proof.
  intros HF H.
  induction H as [| k v d s d' s' Hex H IH | k v v' d s s1 d' s' Hex Hv H IH].
  - constructor.
  - apply Forall_cons in HF as [_ HF]. constructor; [|by apply IH].
    split; [done | constructor].
  - apply Forall_cons in HF as [Hkv HF]. constructor; [|by apply IH].
    split; [done|]. by eapply Hkv.
Qed.

Lemma collapsed_list_collapses path items i s items' s' :
  Forall (fun v => forall p s0 r s1,
              cache_and_replace v p s0 = (Ok r, s1) -> collapses_to v r) items ->
  collapsed_list path items i s items' s' ->
  Forall2 collapses_to items items'.
Proof.
  intros HF H. induction H as [| v v' items i s s1 items' s' Hv H IH].
  - constructor.
  - apply Forall_cons in HF as [Hx HF]. constructor; [by eapply Hx | by apply IH].
Qed.

(** X2.  What [cache_and_replace] returns is its argument with some
    composite subtrees replaced by back-reference strings, and nothing
    else: no key is dropped, added or moved, no list changes length, no
    scalar changes. *)
Theorem cache_and_replace_only_replaces_subtrees
  (value : json) (path : list N) (self : ProxyServer) (r : json) (self' : ProxyServer) :
  json_wf value = true ->
  cache_and_replace value path self = (Ok r, self') ->
  collapses_to value r.
Proof.
  revert path self r self'.
  induction value as [| b | n | f | t | items IH | d IH] using json_ind;
    intros path self r self' Hwf; rewrite cache_and_replace_eq;
    destruct (cache_json self); cbn [negb is_composite];
    try (intros [= <- _]; constructor).
  - destruct (json_cache self !! fingerprint (JArr items)) as [pv|];
      [intros [= <- _]; by constructor|].
    cbn [create_preview]. intros H.
    apply collapse_list_collapsed in H as (items' & -> & H).
    apply collapses_list. eapply collapsed_list_collapses; [|exact H].
    apply json_wf_arr in Hwf.
    eapply Forall_impl; [apply Forall_and; split; [exact IH | exact Hwf]|].
    intros v [Hv Hwfv] p s0 r0 s1. eapply Hv. exact Hwfv.
  - destruct (json_cache self !! fingerprint (JObj d)) as [pv|];
      [intros [= <- _]; by constructor|].
    destruct (create_preview (JObj d) 60) as [pv|e]; [|done].
    apply json_wf_obj in Hwf as [Hnd Hwf]. intros H.
    apply collapse_dict_collapsed in H as (d' & -> & H); [|done].
    apply collapses_dict. eapply collapsed_dict_collapses; [|exact H].
    eapply Forall_impl; [apply Forall_and; split; [exact IH | exact Hwf]|].
    intros kv [Hv Hwfv] p s0 r0 s1. eapply Hv. exact Hwfv.
Qed.

Lemma entries_from_refl vs s : entries_from vs s s.
Proof. intros h pv H. by left. Qed.

Lemma entries_from_trans vs1 vs2 s1 s2 s3 :
  entries_from vs1 s1 s2 -> entries_from vs2 s2 s3 ->
  entries_from (vs1 ++ vs2) s1 s3.
Proof.
  intros H1 H2 h pv H. destruct (H2 h pv H) as [H'|(v & Hv & Hh & Hp)].
  - destruct (H1 h pv H') as [H''|(v & Hv & Hh & Hp)]; [by left|].
    right. exists v. rewrite elem_of_app. auto.
  - right. exists v. rewrite elem_of_app. auto.
Qed.

Lemma collapse_dict_entries rec path d :
  Forall (fun kv => forall p s r s',
              rec (snd kv) p s = (r, s') -> entries_from (visited p (snd kv)) s s') d ->
  forall res s r s',
    collapse_dict rec path d res s = (r, s') ->
    entries_from (visited_dict path d) s s'.
Proof.
  induction 1 as [|[k v] d Hv Hd IH]; intros res s r s'; cbn [collapse_dict visited_dict].
  - intros [= _ <-]. apply entries_from_refl.
  - cbn [fst snd]. destruct (is_exempt path k); [apply IH|].
    destruct (rec v (child_path path k) s) as [[v'|e] s1] eqn:E.
    + intros H. eapply entries_from_trans; [by eapply Hv | by eapply IH].
    + intros [= _ <-]. rewrite <- (app_nil_r (visited _ v)), <- app_assoc.
      eapply entries_from_trans; [by eapply Hv | apply entries_from_refl].
Qed.

Lemma collapse_list_entries rec path items :
  Forall (fun v => forall p s r s',
              rec v p s = (r, s') -> entries_from (visited p v) s s') items ->
  forall i res s r s',
    collapse_list rec path items i res s = (r, s') ->
    entries_from (visited_list path i items) s s'.
Proof.
  induction 1 as [|v items Hv Hd IH]; intros i res s r s';
    cbn [collapse_list visited_list].
  - intros [= _ <-]. apply entries_from_refl.
  - destruct (rec v (item_path path i) s) as [[v'|e] s1] eqn:E.
    + intros H. eapply entries_from_trans; [by eapply Hv | by eapply IH].
    + intros [= _ <-]. rewrite <- (app_nil_r (visited _ v)), <- app_assoc.
      eapply entries_from_trans; [by eapply Hv | apply entries_from_refl].
Qed.

Lemma entries_from_insert v vs s s' preview :
  create_preview v 60 = Ok preview ->
  entries_from vs
    (set_json_cache s (<[fingerprint v := preview]> (json_cache s))) s' ->
  entries_from (v :: vs) s s'.
Proof.
  intros Hp H h pv Hh. destruct (H h pv Hh) as [H'|(w & Hw & -> & Hpw)].
  - cbn [json_cache set_json_cache] in H'.
    destruct (decide (fingerprint v = h)) as [<-|Hne].
    + rewrite lookup_insert_eq in H'. injection H' as <-.
      right. exists v. split; [by left | done].
    + rewrite lookup_insert_ne in H' by done. by left.
  - right. exists w. split; [by right | done].
Qed.

Lemma cache_and_replace_entries value :
  forall path self r self',
    cache_and_replace value path self = (r, self') ->
    entries_from (visited path value) self self'.
Proof.
  induction value as [| b | n | f | t | items IH | d IH] using json_ind;
    intros path self r self'; rewrite cache_and_replace_eq;
    destruct (cache_json self); cbn [negb is_composite];
    try (intros [= _ <-]; apply entries_from_refl).
  - destruct (json_cache self !! fingerprint (JArr items)) as [pv|];
      [intros [= _ <-]; apply entries_from_refl|].
    destruct (create_preview (JArr items) 60) as [pv|e] eqn:Hp;
      [|intros [= _ <-]; apply entries_from_refl].
    cbn zeta. intros H. rewrite visited_arr.
    eapply entries_from_insert; [exact Hp|].
    eapply collapse_list_entries; [exact IH | exact H].
  - destruct (json_cache self !! fingerprint (JObj d)) as [pv|];
      [intros [= _ <-]; apply entries_from_refl|].
    destruct (create_preview (JObj d) 60) as [pv|e] eqn:Hp;
      [|intros [= _ <-]; apply entries_from_refl].
    cbn zeta. intros H. rewrite visited_obj.
    eapply entries_from_insert; [exact Hp|].
    eapply collapse_dict_entries; [exact IH | exact H].
Qed.

Lemma visited_composite value :
  forall path, Forall (fun v => is_composite v = true) (visited path value).
Proof.
  induction value as [| b | n | f | t | items IH | d IH] using json_ind;
    intros path; try by constructor.
  - rewrite visited_arr. constructor; [done|]. generalize 0%nat.
    induction IH as [|x l Hx Hl IHl]; intros i; cbn [visited_list];
      [constructor|]. apply Forall_app. auto.
  - rewrite visited_obj. constructor; [done|].
    induction IH as [|kv l Hx Hl IHl]; cbn [visited_dict]; [constructor|].
    apply Forall_app. split; [|done].
    destruct (is_exempt path (fst kv)); [constructor | apply Hx].
Qed.

(** X3.  Whatever [cache_and_replace] does, every entry it leaves in the
    cache was there before or maps the fingerprint of a composite of the
    document to the preview of that composite: scalars, the values of the
    exempt top-level keys and the marker strings are never cached. *)
Theorem cache_entries_are_previews
  (value : json) (path : list N) (self : ProxyServer) :
  let self' := snd (cache_and_replace value path self) in
  forall h preview,
    json_cache self' !! h = Some preview ->
    json_cache self !! h = Some preview
    \/ exists v,
        v ∈ visited path value /\ is_composite v = true
        /\ compute_hash v = Ok h /\ create_preview v 60 = Ok preview.
Proof.
  cbv zeta. intros h pv Hh.
  destruct (cache_and_replace value path self) as [r self'] eqn:E.
  apply cache_and_replace_entries in E.
  destruct (E h pv Hh) as [H|(v & Hv & -> & Hp)]; [by left|].
  right. exists v. repeat split; try done.
  - pose proof (visited_composite value path) as HF.
    rewrite Forall_forall in HF. by apply HF.
  - apply compute_hash_fingerprint.
Qed.









(** ** The preview builder *)

(** X5.  [create_preview] raises in two cases only, both on a mapping that
    has a "type" key and a "text" key: [TypeError] when the text is a
    number, a boolean or null, and the error of slicing a mapping when the
    text is itself a mapping of more than 40 entries.  On every other
    value it returns a preview. *)
Theorem create_preview_raises_iff (value : json) (max_length : nat) (e : exn) :
  create_preview value max_length = Raise e
  <-> exists d t text,
        value = JObj d
        /\ dict_get (u "type") d = Some t
        /\ dict_get (u "text") d = Some text
        /\ ((is_unsized text = true /\ e = TypeError)
            \/ (exists d', text = JObj d' /\ (40 < length d')%nat
                           /\ e = DictSliceError)).
Proof.
  split.
  - destruct value as [| | | | s | items | d]; cbn [create_preview]; try done.
    + by destruct (max_length <? length s)%nat.
    + destruct (dict_get (u "type") d) as [t|] eqn:Ht;
        destruct (dict_get (u "text") d) as [text|] eqn:Htext;
        try (repeat match goal with
                    | |- context [match dict_get ?k ?d with _ => _ end] =>
                        destruct (dict_get k d)
                    | |- context [if ?b then _ else _] => destruct b
                    end; done).
      intros H. exists d, t, text. repeat split; try done.
      destruct text as [| | | | s | items | d']; cbn [py_len obind] in H;
        try (injection H as <-; left; done).
      * by destruct (40 <? length s)%nat.
      * by destruct (40 <? length items)%nat.
      * destruct (40 <? length d')%nat eqn:E; [|done].
        cbn [py_slice_to obind] in H. injection H as <-.
        right. exists d'. repeat split; try done. by apply Nat.ltb_lt.
  - intros (d & t & text & -> & Ht & Htext & H). cbn [create_preview].
    rewrite Ht, Htext. destruct H as [[Hu ->]|(d' & -> & Hlen & ->)].
    + by destruct text.
    + cbn [py_len obind]. apply Nat.ltb_lt in Hlen. by rewrite Hlen.
Qed.

(** The length of a string literal, computed. *)
Ltac literal_lengths :=
  repeat match goal with
         | |- context [length (u ?s)] =>
             let n := eval vm_compute in (length (u s)) in
             change (length (u s)) with n
         end.

(** X6.  The preview of a string keeps at most [max_length] of its
    characters, and the preview of a content block (a mapping with "type"
    and a string under "text") at most 40 of the text: the first is never
    longer than [max_length + 5], the second never longer than 61. *)
Theorem create_preview_bounded :
  (forall s max_length,
      exists preview,
        create_preview (JStr s) max_length = Ok preview
        /\ (length preview <= max_length + 5)%nat)
  /\ (forall d t text,
        dict_get (u "type") d = Some t ->
        dict_get (u "text") d = Some (JStr text) ->
        exists preview,
          create_preview (JObj d) 60 = Ok preview
          /\ (length preview <= 61)%nat).
Proof.
  split.
  - intros s n. cbn [create_preview].
    destruct (n <? length s)%nat eqn:E; eexists; (split; [reflexivity|]).
    + rewrite !length_app, length_take. literal_lengths; lia.
    + apply Nat.ltb_ge in E. rewrite !length_app. literal_lengths; lia.
  - intros d t text Ht Htext. cbn [create_preview]. rewrite Ht, Htext.
    cbn [py_len obind]. destruct (40 <? length text)%nat eqn:E;
      cbn [py_slice_to obind py_str]; eexists; (split; [reflexivity|]).
    + rewrite !length_app, length_take. literal_lengths; lia.
    + apply Nat.ltb_ge in E. rewrite !length_app. literal_lengths; lia.
Qed.

(** ** The tools filter *)

Lemma dict_set_keys key val (d : list (list N * json)) :
  is_Some (dict_get key d) -> map fst (dict_set key val d) = map fst d.
Proof.
  induction d as [|[k v] d IH]; simpl; [by intros [? ?]|].
  destruct (str_eqb k key) eqn:E; [done|]. intros H. simpl. by rewrite IH.
Qed.

Lemma dict_get_set_eq key val (d : list (list N * json)) :
  dict_get key (dict_set key val d) = Some val.
Proof.
  induction d as [|[k v] d IH]; simpl.
  - by rewrite (proj2 (str_eqb_eq key key)).
  - destruct (str_eqb k key) eqn:E; simpl; by rewrite E.
Qed.

Lemma dict_get_set_ne key key' val (d : list (list N * json)) :
  key' <> key -> dict_get key' (dict_set key val d) = dict_get key' d.
Proof.
  intros Hne. induction d as [|[k v] d IH]; simpl.
  - by rewrite (proj2 (str_eqb_neq key key')).
  - destruct (str_eqb k key) eqn:E; simpl; [|by rewrite IH].
    apply str_eqb_eq in E as ->. by rewrite (proj2 (str_eqb_neq key key')).
Qed.

Lemma dict_set_idem key val (d : list (list N * json)) :
  dict_set key val (dict_set key val d) = dict_set key val d.
Proof.
  induction d as [|[k v] d IH]; simpl.
  - by rewrite (proj2 (str_eqb_eq key key)).
  - destruct (str_eqb k key) eqn:E; simpl; rewrite E; [done | by rewrite IH].
Qed.

(** X7.  [filter_tools] changes a value only when show-tools is off and
    the value is a mapping with a "tools" key; then the result is a
    mapping with the same keys in the same order in which "tools" maps to
    the placeholder and every other key to the value it had.  Filtering
    twice is filtering once. *)
Theorem filter_tools_replaces_tools_only (self : ProxyServer) (value : json) :
  let r := filter_tools self value in
  (show_tools self = true -> r = value)
  /\ (is_dict value = false -> r = value)
  /\ (forall d,
        value = JObj d -> dict_get (u "tools") d = None -> r = value)
  /\ (forall d,
        value = JObj d -> show_tools self = false ->
        is_Some (dict_get (u "tools") d) ->
        exists d',
          r = JObj d'
          /\ map fst d' = map fst d
          /\ dict_get (u "tools") d' = Some (JStr TOOLS_HIDDEN)
          /\ forall key, key <> u "tools" -> dict_get key d' = dict_get key d)
  /\ filter_tools self r = r.
Proof.
  cbv zeta. repeat split.
  - intros Hst. unfold filter_tools. rewrite Hst. by destruct value.
  - intros Hd. by destruct value.
  - intros d -> Hnone. unfold filter_tools. rewrite Hnone.
    rewrite bool_decide_eq_false_2; [by rewrite andb_false_r|].
    by intros [? ?].
  - intros d -> Hst Htools. rewrite filter_tools_hidden by done.
    eexists. split; [reflexivity|]. split; [by apply dict_set_keys|].
    split; [apply dict_get_set_eq|]. intros key Hne. by apply dict_get_set_ne.
  - destruct value as [| | | | | |d]; try done. unfold filter_tools at 2.
    destruct (negb (show_tools self)
              && bool_decide (is_Some (dict_get (u "tools") d))) eqn:E; [|
      unfold filter_tools; by rewrite E].
    unfold filter_tools. apply andb_prop in E as [E1 E2]. rewrite E1.
    rewrite dict_get_set_eq. rewrite bool_decide_eq_true_2 by by eexists.
    rewrite E2. cbn [andb]. by rewrite dict_set_idem.
Qed.

(** ** The renderer *)

Lemma plain_app s t : plain s -> plain t -> plain (s ++ t).
Proof. apply Forall_app_2. Qed.

Lemma plain_concat ss : Forall plain ss -> plain (concat ss).
Proof. induction 1; simpl; [constructor | by apply plain_app]. Qed.

Lemma plain_check s :
  forallb (fun c => (32 <=? c) && (c <=? 126)) s = true -> plain s.
Proof.
  induction s as [|c s IH]; simpl; [constructor|].
  intros H. apply andb_prop in H as [H1 H2]. apply andb_prop in H1 as [H0 H1].
  apply N.leb_le in H0. apply N.leb_le in H1. constructor; [lia | by apply IH].
Qed.

Lemma plain_hex_fixed k n : plain (hex_fixed k n).
Proof.
  revert n. induction k as [|k IH]; intros n; simpl; [constructor|].
  apply plain_app; [apply IH|]. constructor; [|constructor].
  assert (N.land n 15 < 16) as H.
  { change 15 with (N.ones 4). rewrite N.land_ones.
    apply N.mod_upper_bound. discriminate. }
  unfold hex_digit. destruct (N.ltb_spec (N.land n 15) 10); lia.
Qed.

Lemma plain_escape_char c : plain (escape_char c).
Proof.
  unfold escape_char.
  repeat match goal with
         | |- context [if ?b then _ else _] => destruct b eqn:?
         end;
    repeat first [ apply plain_hex_fixed | apply plain_app ];
    try (apply plain_check; vm_compute; reflexivity).
  apply plain_check. simpl. by rewrite andb_true_r.
Qed.

Lemma plain_dumps_str s : plain (dumps_str s).
Proof.
  unfold dumps_str. apply plain_app; [by apply plain_check|].
  apply plain_app; [|by apply plain_check].
  apply plain_concat. apply Forall_map. apply Forall_forall.
  intros c _. apply plain_escape_char.
Qed.

(** X8.  Outside a text field a string is rendered on one line in
    printable ASCII, whatever it holds: line breaks, control characters,
    the escape character and every character beyond ASCII are escaped.
    The same holds in a text field for a string of at most 20 characters
    with no line break. *)
Theorem format_json_string_plain (s : list N) (indent : nat) :
  plain (format_json (JStr s) indent false)
  /\ (NL ∉ s -> (length s <= 20)%nat -> plain (format_json (JStr s) indent true))
  /\ (NL ∉ format_json (JStr s) indent false)
  /\ (ESC ∉ format_json (JStr s) indent false).
Proof.
  assert (plain (format_json (JStr s) indent false)) as Hplain
    by apply plain_dumps_str.
  split; [exact Hplain|]. split; [|split].
  - intros Hnl Hlen. cbn [format_json].
    assert (existsb (N.eqb NL) s = false) as ->.
    { apply not_true_is_false. intros H. apply existsb_exists in H as (c & Hc & E).
      apply N.eqb_eq in E as <-. by apply Hnl, list_elem_of_In. }
    cbn [andb]. apply Nat.leb_le in Hlen.
    replace (20 <? length s)%nat with false
      by (symmetry; apply Nat.ltb_ge; by apply Nat.leb_le).
    apply plain_dumps_str.
  - intros H. unfold plain in Hplain. rewrite Forall_forall in Hplain.
    apply Hplain in H. unfold NL in H. lia.
  - intros H. unfold plain in Hplain. rewrite Forall_forall in Hplain.
    apply Hplain in H. unfold ESC in H. lia.
Qed.

(** ** The stream condenser *)

Lemma collect_events_names lines :
  forall events current_event collected,
    collect_events lines events current_event = Ok collected ->
    map ev_event collected
    = map ev_event (flush events current_event)
        ++ map event_name (List.filter (startswith (u "event: ")) lines).
Proof.
  induction lines as [|line rest IH]; intros events cur collected;
    cbn [collect_events List.filter].
  - intros [= <-]. by rewrite app_nil_r.
  - destruct (startswith (u "event: ") line) eqn:E1.
    + intros H. rewrite (IH _ _ _ H). cbn [flush map]. rewrite map_app.
      cbn [map ev_event]. by rewrite <- app_assoc.
    + destruct (startswith (u "data: ") line); [|apply IH].
      destruct cur as [e|]; [|apply IH].
      assert (forall data,
                 map ev_event (flush events (Some (mkEvent (ev_event e) data)))
                 = map ev_event (flush events (Some e))) as Hname.
      { intros data. destruct e as [name data']. cbn [flush ev_event].
        by rewrite !map_app. }
      destruct (json_loads (strip (drop 6 line))) as [v|e'].
      * intros H. by rewrite (IH _ _ _ H), Hname.
      * destruct e'; try done. intros H. by rewrite (IH _ _ _ H), Hname.
Qed.

Lemma collect_events_raises lines :
  forall events current_event e,
    collect_events lines events current_event = Raise e ->
    e <> JSONDecodeError
    /\ exists line,
         line ∈ lines /\ startswith (u "data: ") line = true
         /\ json_loads (strip (drop 6 line)) = Raise e.
Proof.
  induction lines as [|line rest IH]; intros events cur e;
    cbn [collect_events]; [done|].
  assert (forall events cur,
             collect_events rest events cur = Raise e ->
             e <> JSONDecodeError
             /\ exists line',
                  line' ∈ line :: rest /\ startswith (u "data: ") line' = true
                  /\ json_loads (strip (drop 6 line')) = Raise e) as Hrest.
  { intros events' cur' H. destruct (IH _ _ _ H) as (He & line' & Hin & Hl).
    split; [done|]. exists line'. split; [by right | done]. }
  destruct (startswith (u "event: ") line); [apply Hrest|].
  destruct (startswith (u "data: ") line) eqn:E2; [|apply Hrest].
  destruct cur as [ev|]; [|apply Hrest].
  destruct (json_loads (strip (drop 6 line))) as [v|e'] eqn:E3; [apply Hrest|].
  destruct e'; try apply Hrest;
    intros [= <-]; (split; [done|]); exists line; (split; [by left | done]).
Qed.

(** X9.  The first pass makes one record per event-name line, in the order
    of the lines, named by the rest of the line with the blanks at both
    ends removed; data lines and other lines add no record.  The pass is
    left early only by an exception that [json.loads] raised on the
    payload of a data line and that is not [json.JSONDecodeError]. *)
Theorem collect_events_one_per_event_line (lines : list (list N)) :
  match collect_events lines [] None with
  | Ok events =>
      map ev_event events
      = map event_name (List.filter (startswith (u "event: ")) lines)
  | Raise e =>
      e <> JSONDecodeError
      /\ exists line,
           line ∈ lines /\ startswith (u "data: ") line = true
           /\ json_loads (strip (drop 6 line)) = Raise e
  end.
Proof.
  destruct (collect_events lines [] None) as [events|e] eqn:E.
  - by rewrite (collect_events_names _ _ _ _ E).
  - by eapply collect_events_raises.
Qed.

Lemma collect_events_no_event lines :
  Forall (fun line => startswith (u "event: ") line = false) lines ->
  collect_events lines [] None = Ok [].
Proof.
  induction 1 as [|line rest Hline Hrest IH]; cbn [collect_events]; [done|].
  rewrite Hline. by destruct (startswith (u "data: ") line).
Qed.

(** X10.  A body without any event-name line condenses to the header line
    alone: data lines that follow no event-name line are dropped, their
    payload is not parsed, and nothing raises. *)
Theorem parse_streaming_response_without_events (body_text : list N) :
  Forall (fun line => startswith (u "event: ") line = false)
         (split NL (strip body_text)) ->
  parse_streaming_response body_text = Ok STREAM_HEADER.
Proof.
  intros H. unfold parse_streaming_response.
  by rewrite collect_events_no_event.
Qed.

Lemma find_elem_of {A} (f : A -> bool) l x : find f l = Some x -> x ∈ l /\ f x = true.
Proof.
  induction l as [|y l IH]; simpl; [done|]. destruct (f y) eqn:E.
  - intros [= ->]. split; [by left | done].
  - intros H. apply IH in H as [? ?]. split; [by right | done].
Qed.

Lemma mapping_or_falsy_get v key dflt :
  mapping_or_falsy v = true -> truthy v = true ->
  exists r, py_get v key dflt = Ok r.
Proof.
  unfold mapping_or_falsy. intros H Ht. rewrite Ht in H.
  rewrite orb_false_r in H. destruct v; try done. by eexists.
Qed.

Lemma extract_text_deltas_shaped events :
  Forall (fun ev => well_shaped ev = true) events ->
  forall acc,
    Forall (fun v => is_str v = true) acc ->
    exists text_deltas,
      extract_text_deltas events acc = Ok text_deltas
      /\ Forall (fun v => is_str v = true) text_deltas.
Proof.
  induction 1 as [|ev events Hev Hevents IH]; intros acc Hacc;
    cbn [extract_text_deltas]; [by eexists|].
  destruct (str_eqb (ev_event ev) (u "content_block_delta")
            && truthy (ev_data ev) && is_dict (ev_data ev)
            && match py_get (ev_data ev) (u "type") JNull with
               | Ok ty => eq_str ty (u "content_block_delta")
               | Raise _ => false
               end); [|by apply IH].
  unfold well_shaped in Hev. destruct (ev_data ev) as [| | | | | |d]; try done.
  apply andb_prop in Hev as [Hev _]. apply andb_prop in Hev as [Hdelta _].
  cbn [py_get obind]. unfold delta_ok in Hdelta.
  destruct (default (JObj []) (dict_get (u "delta") d)) as [| | | | | |dd];
    try done.
  cbn [py_get obind].
  destruct (eq_str (default JNull (dict_get (u "type") dd)) (u "text_delta"));
    [|by apply IH].
  cbn [negb orb] in Hdelta. apply IH. apply Forall_app. split; [done|].
  by constructor.
Qed.

Lemma join_deltas_strings text_deltas :
  Forall (fun v => is_str v = true) text_deltas ->
  exists merged, join_deltas text_deltas = Ok merged.
Proof.
  induction 1 as [|v l Hv Hl [m IH]]; cbn [join_deltas]; [by eexists|].
  destruct v; try done. rewrite IH. by eexists.
Qed.

Lemma show_message_start_shaped events :
  Forall (fun ev => well_shaped ev = true) events ->
  exists out, show_message_start events = Ok out.
Proof.
  intros HF. unfold show_message_start, first_event.
  destruct (find _ events) as [ev|] eqn:E; [|by eexists].
  apply find_elem_of in E as [Hin _]. rewrite Forall_forall in HF.
  specialize (HF ev Hin). unfold well_shaped in HF.
  destruct (ev_data ev) as [| | | | | |d]; try done.
  apply andb_prop in HF as [HF _]. apply andb_prop in HF as [_ Hm].
  cbn [py_get obind]. unfold message_ok in Hm.
  destruct (default (JObj []) (dict_get (u "message") d)) as [| | | | | |md];
    try done.
  cbn [py_get obind].
  destruct (truthy (default (JObj []) (dict_get (u "usage") md))) eqn:Ht;
    [|by eexists].
  destruct (mapping_or_falsy_get _ (u "input_tokens") JNull Hm Ht) as [r1 ->].
  destruct (mapping_or_falsy_get _ (u "output_tokens") JNull Hm Ht) as [r2 ->].
  by eexists.
Qed.

Lemma show_content_block_start_shaped events :
  Forall (fun ev => well_shaped ev = true) events ->
  exists out, show_content_block_start events = Ok out.
Proof.
  intros HF. unfold show_content_block_start, first_event.
  destruct (find _ events) as [ev|] eqn:E; [|by eexists].
  apply find_elem_of in E as [Hin _]. rewrite Forall_forall in HF.
  specialize (HF ev Hin). unfold well_shaped in HF.
  destruct (ev_data ev) as [| | | | | |d]; try done. by eexists.
Qed.

Lemma show_message_delta_shaped events :
  Forall (fun ev => well_shaped ev = true) events ->
  exists out, show_message_delta events = Ok out.
Proof.
  intros HF. unfold show_message_delta, first_event.
  destruct (find _ events) as [ev|] eqn:E; [|by eexists].
  apply find_elem_of in E as [Hin _]. rewrite Forall_forall in HF.
  specialize (HF ev Hin). unfold well_shaped in HF.
  destruct (ev_data ev) as [| | | | | |d]; try done.
  apply andb_prop in HF as [HF Hu]. apply andb_prop in HF as [Hdelta _].
  cbn [py_get obind]. unfold delta_ok in Hdelta.
  destruct (default (JObj []) (dict_get (u "delta") d)) as [| | | | | |dd];
    try done.
  cbn [py_get obind].
  destruct (truthy (default (JObj []) (dict_get (u "usage") d))) eqn:Ht;
    [|by eexists].
  destruct (mapping_or_falsy_get _ (u "output_tokens") JNull Hu Ht) as [r ->].
  by eexists.
Qed.

(** X11.  Once the first pass has made its records, the condenser returns
    a summary, whose first line is the header, whenever the payload of
    every record is a mapping in which "delta" and "message" are mappings
    when present, "usage" (of the payload and of its message) is a
    mapping or counts as false, and the text of a text delta is a string;
    missing keys are never an error. *)
Theorem parse_streaming_response_tolerant
  (body_text : list N) (events : list event) :
  collect_events (split NL (strip body_text)) [] None = Ok events ->
  Forall (fun ev => well_shaped ev = true) events ->
  exists rest,
    parse_streaming_response body_text = Ok (join [NL] (STREAM_HEADER :: rest)).
Proof.
  intros Hevents HF. unfold parse_streaming_response, condense.
  rewrite Hevents. cbn [obind].
  destruct (extract_text_deltas_shaped _ HF [] ltac:(constructor))
    as (tds & -> & Htds).
  destruct (show_message_start_shaped _ HF) as [o1 ->].
  destruct (show_content_block_start_shaped _ HF) as [o2 ->].
  cbn [obind].
  assert (exists o3, show_text_deltas tds = Ok o3) as [o3 ->].
  { unfold show_text_deltas. destruct tds as [|t tds]; [by eexists|].
    destruct (join_deltas_strings _ Htds) as [m ->]. by eexists. }
  destruct (show_message_delta_shaped _ HF) as [o4 ->].
  cbn [obind]. by eexists.
Qed.

(** ** The trace writers *)

Lemma extends_request_count s s' : extends s s' -> request_count s' = request_count s.
Proof. intros [-> _]. reflexivity. Qed.

Lemma print_body_self text printed self :
  tr_self (print_body text printed self) = self.
Proof. unfold print_body. by destruct (stdout_encodes text). Qed.

Lemma print_body_raises text printed self e :
  tr_result (print_body text printed self) = Raise e ->
  e = UnicodeEncodeError /\ tr_printed (print_body text printed self) = printed.
Proof.
  unfold print_body. destruct (stdout_encodes text); [done|].
  by intros [= <-].
Qed.


Lemma print_json_body_extends printed json_body self :
  extends self (tr_self (print_json_body printed json_body self)).
Proof.
  unfold print_json_body.
  destruct (cache_and_replace json_body [] self) as [[r|e] s'] eqn:E;
    rewrite ?print_body_self; cbn [tr_self];
    by eapply cache_and_replace_extends.
Qed.

Lemma print_text_body_extends printed body_text self :
  extends self (tr_self (print_text_body printed body_text self)).
Proof.
  unfold print_text_body.
  destruct (json_loads body_text) as [json_body|e];
    [apply print_json_body_extends|].
  destruct e; rewrite ?print_body_self; apply extends_refl.
Qed.

Lemma print_request_extends timestamp method path headers body self :
  extends (incr_request_count self)
          (tr_self (print_request timestamp method path headers body self)).
Proof.
  rewrite print_request_eq. cbv zeta.
  destruct (print_all _ []) as [[r|e] printed]; [|apply extends_refl].
  destruct body as [[|b bs]|]; try apply extends_refl.
  destruct (decode_utf8 (b :: bs)) as [body_text|];
    [apply print_text_body_extends|].
  rewrite print_body_self. apply extends_refl.
Qed.

Lemma print_response_extends timestamp status headers body self :
  extends self (tr_self (print_response timestamp status headers body self)).
Proof.
  rewrite print_response_eq.
  destruct (print_all _ []) as [[r|e] printed]; [|apply extends_refl].
  destruct body as [[|b bs]|]; try apply extends_refl.
  destruct (decode_utf8 (b :: bs)) as [body_text|].
  - destruct (startswith (u "event: ") (strip body_text));
      [|apply print_text_body_extends].
    destruct (parse_streaming_response body_text);
      rewrite ?print_body_self; apply extends_refl.
  - rewrite print_body_self. apply extends_refl.
Qed.

(** X12.  Writing a request adds exactly one to the request counter and
    writing a response leaves it as it is, whatever the bodies are and
    whether the writers return or raise; neither changes a setting of the
    proxy, and neither removes or changes an entry of the cache. *)
Theorem writers_count_requests
  (timestamp method path : list N) (headers : list (list N * list N))
  (body : option (list byte)) (timestamp' : list N) (status : Z)
  (headers' : list (list N * list N)) (body' : option (list byte))
  (self : ProxyServer) :
  let after_request :=
    tr_self (print_request timestamp method path headers body self) in
  let after_response :=
    tr_self (print_response timestamp' status headers' body' after_request) in
  request_count after_request = (request_count self + 1)%Z
  /\ request_count after_response = (request_count self + 1)%Z
  /\ extends (incr_request_count self) after_request
  /\ extends after_request after_response.
Proof.
  intros s1 s2.
  pose proof (print_request_extends timestamp method path headers body self) as H1.
  pose proof (print_response_extends timestamp' status headers' body' s1) as H2.
  fold s1 in H1. fold s2 in H2.
  assert (request_count s1 = (request_count self + 1)%Z) as E1
    by (by rewrite (extends_request_count _ _ H1)).
  repeat split; try (apply H1 || apply H2 || done).
  by rewrite (extends_request_count _ _ H2).
Qed.


Lemma create_preview_raises_kind value max_length e :
  create_preview value max_length = Raise e -> e = TypeError \/ e = DictSliceError.
Proof.
  destruct value as [| | | | | |d]; cbn [create_preview]; try done.
  - intros H. by destruct (_ <? _)%nat.
  - destruct (dict_get (u "type") d), (dict_get (u "text") d) as [text|].
    2-4: destruct (dict_get (u "role") d), (dict_get (u "content") d);
         try (by destruct (_ <? _)%nat);
         destruct (dict_get (u "name") d), (dict_get (u "description") d); done.
    destruct text; cbn [py_len obind py_slice_to];
      try (intros [= <-]; by left); destruct (_ <? _)%nat; try done.
    intros [= <-]. by right.
Qed.

Lemma collapse_dict_raises_kind rec path d :
  Forall (fun kv => forall p s e s',
            rec (snd kv) p s = (Raise e, s') -> e = TypeError \/ e = DictSliceError) d ->
  forall res s e s',
    collapse_dict rec path d res s = (Raise e, s') ->
    e = TypeError \/ e = DictSliceError.
Proof.
  induction 1 as [|[k v] d Hv Hd IH]; intros res s e s'; simpl; [done|].
  destruct (is_exempt path k); [apply IH|].
  destruct (rec v (child_path path k) s) as [[v'|e'] s1] eqn:E; [apply IH|].
  intros [= <- <-]. by eapply Hv.
Qed.

Lemma collapse_list_raises_kind rec path items :
  Forall (fun v => forall p s e s',
            rec v p s = (Raise e, s') -> e = TypeError \/ e = DictSliceError) items ->
  forall i res s e s',
    collapse_list rec path items i res s = (Raise e, s') ->
    e = TypeError \/ e = DictSliceError.
Proof.
  induction 1 as [|v items Hv Hitems IH]; intros i res s e s'; simpl; [done|].
  destruct (rec v (item_path path i) s) as [[v'|e'] s1] eqn:E; [apply IH|].
  intros [= <- <-]. by eapply Hv.
Qed.

Lemma cache_and_replace_raises_kind value :
  forall path self e self',
    cache_and_replace value path self = (Raise e, self') ->
    e = TypeError \/ e = DictSliceError.
Proof.
  induction value as [| b | n | f | t | items IH | d IH] using json_ind;
    intros path self e self'; rewrite cache_and_replace_eq;
    destruct (cache_json self); cbn [negb is_composite]; try done.
  - destruct (json_cache self !! fingerprint (JArr items)); [done|].
    cbn [create_preview]. by apply collapse_list_raises_kind.
  - destruct (json_cache self !! fingerprint (JObj d)); [done|].
    destruct (create_preview (JObj d) 60) as [pv|e'] eqn:E.
    + by apply collapse_dict_raises_kind.
    + intros [= <- _]. by eapply create_preview_raises_kind.
Qed.

(** How the step after the body header ends: a returned step printed one
    line and the blank line; a raised step printed nothing. *)
Lemma print_json_body_raised printed json_body self e :
  tr_result (print_json_body printed json_body self) = Raise e ->
  tr_printed (print_json_body printed json_body self) = printed
  /\ (e = UnicodeEncodeError \/ e = TypeError \/ e = DictSliceError).
Proof.
  unfold print_json_body.
  destruct (cache_and_replace json_body [] self) as [[r|e'] s'] eqn:E.
  - intros H. apply print_body_raises in H as [-> ->]. auto.
  - cbn [tr_result tr_printed]. intros [= <-]. split; [done|].
    destruct (cache_and_replace_raises_kind _ _ _ _ _ E); auto.
Qed.

Lemma print_text_body_raised printed body_text self e :
  tr_result (print_text_body printed body_text self) = Raise e ->
  tr_printed (print_text_body printed body_text self) = printed
  /\ (e = UnicodeEncodeError \/ e = TypeError \/ e = DictSliceError
      \/ json_loads body_text = Raise e).
Proof.
  unfold print_text_body.
  destruct (json_loads body_text) as [json_body|e'] eqn:E.
  - intros H. apply print_json_body_raised in H as [-> H]. intuition.
  - destruct e'; cbn [tr_result tr_printed];
      try (intros [= <-]; by auto).
    intros H. apply print_body_raises in H as [-> ->]. auto.
Qed.

Lemma print_text_body_returned printed body_text self :
  tr_result (print_text_body printed body_text self) = Ok tt ->
  exists line,
    tr_printed (print_text_body printed body_text self) = printed ++ [line; []].
Proof.
  unfold print_text_body.
  destruct (json_loads body_text) as [json_body|e'] eqn:E.
  - intros H. destruct (print_json_body_returns _ _ _ H) as (r & s' & _ & ->).
    by eexists.
  - destruct e'; try done. intros H. rewrite (print_body_returns _ _ _ H).
    by eexists.
Qed.

(** The ways the request writer ends. *)
Lemma print_request_cases timestamp method path headers body self :
  let tr := print_request timestamp method path headers body self in
  let before := incr_request_count self in
  let lines := request_head before timestamp method path
                 ++ header_lines before headers ++ body_header_line body in
  match tr_result tr with
  | Ok _ =>
      exists rest,
        tr_printed tr = lines ++ rest ++ [[]] /\ (length rest <= 1)%nat
  | Raise e =>
      (exists k, tr_printed tr = take k lines)
      /\ (e = UnicodeEncodeError \/ e = TypeError \/ e = DictSliceError
          \/ exists bytes body_text,
               body = Some bytes /\ decode_utf8 bytes = Some body_text
               /\ json_loads body_text = Raise e)
  end.
Proof.
  cbv zeta. rewrite print_request_eq. cbv zeta.
  set (lines := request_head _ _ _ _ ++ _).
  destruct (print_all lines []) as [[r|e] printed] eqn:E.
  - apply print_all_ok in E as [-> _]. cbn [app].
    assert (forall tr : trace,
               (tr_result tr = Ok tt ->
                exists line, tr_printed tr = lines ++ [line; []]) ->
               (forall e, tr_result tr = Raise e -> tr_printed tr = lines) ->
               match tr_result tr with
               | Ok _ =>
                   exists rest,
                     tr_printed tr = lines ++ rest ++ [[]] /\ (length rest <= 1)%nat
               | Raise e => exists k, tr_printed tr = take k lines
               end) as Hstep.
    { intros tr Hok Hraise. destruct (tr_result tr) as [[]|e].
      - destruct (Hok eq_refl) as [line ->]. by exists [line].
      - exists (length lines). rewrite firstn_all. by apply (Hraise e). }
    destruct body as [[|b bs]|].
    1, 3: cbn [tr_result tr_printed]; exists []; by split; [|cbn; lia].
    destruct (decode_utf8 (b :: bs)) as [body_text|] eqn:Hd.
    + pose proof (print_text_body_returned lines body_text (incr_request_count self))
        as Hok.
      pose proof (print_text_body_raised lines body_text (incr_request_count self))
        as Hraise.
      specialize (Hstep (print_text_body lines body_text (incr_request_count self))
                        Hok (fun e H => proj1 (Hraise e H))).
      destruct (tr_result (print_text_body lines body_text (incr_request_count self)))
        as [[]|e]; [done|]. split; [done|].
      destruct (Hraise e eq_refl) as [_ [?|[?|[?|?]]]]; auto.
      do 3 right. by exists (b :: bs), body_text.
    + unfold print_body. destruct (stdout_encodes _); cbn [tr_result tr_printed].
      * by exists [binary_placeholder (b :: bs)]; split; [|cbn; lia].
      * split; [|by left]. exists (length lines). by rewrite firstn_all.
  - apply print_all_raise in E as (-> & k & text & -> & _). cbn [tr_result tr_printed app].
    split; [by exists k | by left].
Qed.

Lemma print_response_returned timestamp status headers body self :
  tr_result (print_response timestamp status headers body self) = Ok tt ->
  exists rest,
    tr_printed (print_response timestamp status headers body self)
    = response_head self timestamp status ++ rest.
Proof.
  rewrite print_response_eq.
  destruct (print_all _ []) as [[r|e] printed] eqn:E; [|done].
  apply print_all_ok in E as [-> _]. cbn [app].
  set (lines := header_lines self headers ++ body_header_line body).
  assert (forall tr line,
             tr_printed tr = (response_head self timestamp status ++ lines) ++ line ->
             exists rest,
               tr_printed tr = response_head self timestamp status ++ rest)
    as Hstep.
  { intros tr line ->. eexists. by rewrite <- !app_assoc. }
  destruct body as [[|b bs]|]; try (intros _; by eapply Hstep).
  destruct (decode_utf8 (b :: bs)) as [body_text|].
  - destruct (startswith (u "event: ") (strip body_text)).
    + destruct (parse_streaming_response body_text) as [condensed|e]; [|done].
      intros H. rewrite (print_body_returns _ _ _ H). by eapply Hstep.
    + intros H. destruct (print_text_body_returned _ _ _ H) as [line Hl].
      by eapply Hstep.
  - intros H. rewrite (print_body_returns _ _ _ H). by eapply Hstep.
Qed.

(** X13.  A response is printed under the number of the last request
    written on the proxy, which need not be the request it answers: the
    second line of its trace carries the counter as it is.  Written
    directly after a request it carries the number of that request;
    written after a second request came in between, it carries the number
    of the second. *)
Theorem response_numbered_by_last_request
  (timestamp1 method1 path1 : list N) (headers1 : list (list N * list N))
  (body1 : option (list byte))
  (timestamp2 method2 path2 : list N) (headers2 : list (list N * list N))
  (body2 : option (list byte))
  (timestamp : list N) (status : Z) (headers : list (list N * list N))
  (body : option (list byte)) (self : ProxyServer) :
  let first := print_request timestamp1 method1 path1 headers1 body1 self in
  let second :=
    print_request timestamp2 method2 path2 headers2 body2 (tr_self first) in
  let direct := print_response timestamp status headers body (tr_self first) in
  let late := print_response timestamp status headers body (tr_self second) in
  (tr_result first = Ok tt ->
   tr_printed first !! 1%nat
   = Some (Fore_GREEN ++ u "[" ++ str_of_Z (request_count self + 1)
             ++ u "] REQUEST " ++ timestamp1))
  /\ (tr_result direct = Ok tt ->
      tr_printed direct !! 1%nat
      = Some (Fore_GREEN ++ u "[" ++ str_of_Z (request_count self + 1)
                ++ u "] RESPONSE " ++ timestamp))
  /\ (tr_result late = Ok tt ->
      tr_printed late !! 1%nat
      = Some (Fore_GREEN ++ u "[" ++ str_of_Z (request_count self + 2)
                ++ u "] RESPONSE " ++ timestamp)).
Proof.
  cbv zeta.
  pose proof (print_request_extends timestamp1 method1 path1 headers1 body1 self)
    as H1.
  set (first := print_request timestamp1 method1 path1 headers1 body1 self) in *.
  pose proof (print_request_extends timestamp2 method2 path2 headers2 body2
                (tr_self first)) as H2.
  apply extends_request_count in H1, H2. cbn [incr_request_count request_count] in H1, H2.
  split; [|split].
  - intros Hok. pose proof (print_request_cases timestamp1 method1 path1 headers1
                              body1 self) as Hc.
    cbv zeta in Hc. fold first in Hc. rewrite Hok in Hc.
    destruct Hc as (rest & -> & _). reflexivity.
  - intros Hok. destruct (print_response_returned _ _ _ _ _ Hok) as [rest ->].
    cbn [response_head app lookup list_lookup]. by rewrite H1.
  - intros Hok. destruct (print_response_returned _ _ _ _ _ Hok) as [rest ->].
    cbn [response_head app lookup list_lookup]. rewrite H2, H1.
    by replace (request_count self + 1 + 1)%Z with (request_count self + 2)%Z by lia.
Qed.




End Proxy.

(** * The theorems at concrete inputs *)

Lemma compute_hash_canonical_witness :
  compute_hash
    (JObj [(u "b", JObj [(u "x", JInt 1); (u "y", JInt 2)]);
           (u "a", JStr (u "x" ++ [233; 55357]))])
  = compute_hash
      (JObj [(u "a", JStr (u "x" ++ [233; 55357]));
             (u "b", JObj [(u "y", JInt 2); (u "x", JInt 1)])]).
Proof.
  apply (proj2 (proj2 compute_hash_canonical)).
  - vm_compute. reflexivity.
  - apply (reordered_dict _
             [(u "a", JStr (u "x" ++ [233; 55357]));
              (u "b", JObj [(u "x", JInt 1); (u "y", JInt 2)])]);
      [apply perm_swap|].
    repeat constructor.
    apply (reordered_dict _ [(u "y", JInt 2); (u "x", JInt 1)]);
      [apply perm_swap|].
    repeat constructor.
Defined.

Lemma create_preview_not_total_witness :
  let d := [(u "type", JStr (u "t")); (u "text", JInt 5)] in
  (forall max_length,
      create_preview isprintable_ascii (JObj d) max_length = Raise TypeError)
  /\ (forall path self h,
        cache_json self = true ->
        compute_hash (JObj d) = Ok h -> json_cache self !! h = None ->
        cache_and_replace isprintable_ascii (JObj d) path self
        = (Raise TypeError, self)).
Proof.
  cbv zeta.
  apply (create_preview_not_total isprintable_ascii
           [(u "type", JStr (u "t")); (u "text", JInt 5)] (JStr (u "t")) (JInt 5));
    vm_compute; reflexivity.
Defined.

Lemma cache_and_replace_new_then_cached_witness :
  let value := JArr [JObj [(u "k", JInt 1)]; JObj [(u "k", JInt 1)]] in
  let r := JArr [JObj [(u "k", JInt 1)];
                 JStr (cached_marker (u "dict with keys: k"))] in
  let self' := snd (cache_and_replace isprintable_ascii value [] proxy0) in
  exists preview,
    create_preview isprintable_ascii value 60 = Ok preview
    /\ collapsed_children isprintable_ascii [] value
         (set_json_cache proxy0 (<[fingerprint value := preview]> (json_cache proxy0)))
         r self'
    /\ json_cache self' !! fingerprint value = Some preview
    /\ forall path',
         cache_and_replace isprintable_ascii value path' self'
         = (Ok (JStr (cached_marker preview)), self').
Proof.
  cbv zeta.
  apply (cache_and_replace_new_then_cached isprintable_ascii
           (JArr [JObj [(u "k", JInt 1)]; JObj [(u "k", JInt 1)]]) [] proxy0);
    vm_compute; reflexivity.
Defined.

Lemma exempt_keys_copied_witness :
  let d := [(u "model", JArr [JInt 1]); (u "system", JArr [JInt 1])] in
  let out := cache_and_replace isprintable_ascii (JObj d) [] proxy0 in
  exists d' preview,
    JObj d = JObj d'
    /\ map fst d' = map fst d
    /\ (forall key, key ∈ CACHE_EXEMPT -> dict_get key d' = dict_get key d)
    /\ create_preview isprintable_ascii (JObj d) 60 = Ok preview
    /\ collapsed_dict isprintable_ascii [] (filter (not_exempt []) d)
         (set_json_cache proxy0
            (<[fingerprint (JObj d) := preview]> (json_cache proxy0)))
         (filter (not_exempt []) d') (snd out).
Proof.
  cbv zeta.
  apply (exempt_keys_copied isprintable_ascii
           [(u "model", JArr [JInt 1]); (u "system", JArr [JInt 1])] proxy0).
  - reflexivity.
  - apply (bool_decide_unpack _). vm_compute. exact I.
  - vm_compute. reflexivity.
  - vm_compute. reflexivity.
  - vm_compute. reflexivity.
Defined.

Lemma tools_hidden_after_collapse_witness :
  let body := bytes_of tools_text in
  let d := [(u "tools", JArr [tool_doc])] in
  let before := incr_request_count proxy0 in
  let tr := print_request isprintable_ascii json_loads_table stdout_utf8
              (u "2026-01-01 00:00:00.000") (u "POST") (u "/v1/messages")
              [] (Some body) proxy0 in
  exists r head h,
    cache_and_replace isprintable_ascii (JObj d) [] before = (Ok r, tr_self tr)
    /\ tr_printed tr
       = head ++ [body_header body; format_json (filter_tools before r) 0 false; []]
    /\ compute_hash (JObj d) = Ok h
    /\ (forall preview,
          cache_json before = true ->
          json_cache before !! h = Some preview ->
          r = JStr (cached_marker preview)
          /\ filter_tools before r = r
          /\ tr_self tr = before)
    /\ (cache_json before = false ->
        filter_tools before r
        = JObj (dict_set (u "tools") (JStr TOOLS_HIDDEN) d)
        /\ tr_self tr = before)
    /\ (cache_json before = true ->
        json_cache before !! h = None ->
        exists d',
          r = JObj d'
          /\ map fst d' = map fst d
          /\ filter_tools before r
             = JObj (dict_set (u "tools") (JStr TOOLS_HIDDEN) d')
          /\ (is_composite (JArr [tool_doc]) = true ->
              exists ht,
                compute_hash (JArr [tool_doc]) = Ok ht
                /\ is_Some (json_cache (tr_self tr) !! ht))).
Proof.
  cbv zeta.
  apply (tools_hidden_after_collapse isprintable_ascii json_loads_table stdout_utf8
           (u "2026-01-01 00:00:00.000") (u "POST") (u "/v1/messages") 200%Z
           [] (bytes_of tools_text) tools_text
           [(u "tools", JArr [tool_doc])] (JArr [tool_doc]) proxy0
           (incr_request_count proxy0)
           (print_request isprintable_ascii json_loads_table stdout_utf8
              (u "2026-01-01 00:00:00.000") (u "POST") (u "/v1/messages")
              [] (Some (bytes_of tools_text)) proxy0)
           eq_refl
           ltac:(discriminate)
           ltac:(vm_compute; reflexivity)
           ltac:(vm_compute; reflexivity)
           ltac:(apply (bool_decide_unpack _); vm_compute; exact I)
           ltac:(vm_compute; reflexivity)
           ltac:(left; split; reflexivity)
           ltac:(vm_compute; reflexivity)).
Defined.

Lemma body_fallback_misses_exceptions_witness :
  let body := bytes_of long_number_text in
  (let tr := print_request isprintable_ascii json_loads_limited stdout_utf8
               (u "2026-01-01 00:00:00.000") (u "POST") (u "/v1/messages")
               [] (Some body) proxy0 in
   tr_result tr = Raise ValueError
   /\ last (tr_printed tr) = Some (body_header body))
  /\ (let tr := print_response isprintable_ascii json_loads_limited stdout_utf8
                  (u "2026-01-01 00:00:00.000") 200%Z [] (Some body) proxy0 in
      tr_result tr = Raise ValueError
      /\ last (tr_printed tr) = Some (body_header body)).
Proof.
  cbv zeta.
  destruct (body_fallback_misses_exceptions isprintable_ascii json_loads_limited
              stdout_utf8
              (u "2026-01-01 00:00:00.000") (u "POST") (u "/v1/messages") 200%Z
              [] (bytes_of long_number_text) long_number_text ValueError proxy0
              ltac:(vm_compute; discriminate)
              ltac:(vm_compute; reflexivity)
              ltac:(vm_compute; reflexivity)
              ltac:(discriminate)) as [Hrequest Hresponse].
  split.
  - apply Hrequest. vm_compute. reflexivity.
  - apply Hresponse; vm_compute; reflexivity.
Defined.

Lemma stream_example_condensed_witness :
  parse_streaming_response isprintable_ascii json_loads_table stream_example
  = Ok (u "Streaming response events:" ++ [NL]
          ++ u "  - message_start: model=m1, id=msg_1" ++ [NL]
          ++ u "  - content_block_delta (merged): " ++ [34] ++ u "Hello" ++ [34] ++ [NL]
          ++ u "  - message_stop").
Proof.
  apply (proj1 (stream_example_condensed isprintable_ascii json_loads_table
                  ltac:(vm_compute; reflexivity)
                  ltac:(vm_compute; reflexivity)
                  ltac:(vm_compute; reflexivity)
                  ltac:(vm_compute; reflexivity))).
Defined.

(** The further properties at concrete inputs. *)

Lemma cache_and_replace_only_replaces_subtrees_witness :
  collapses_to
    (JArr [JObj [(u "k", JInt 1)]; JObj [(u "k", JInt 1)]])
    (JArr [JObj [(u "k", JInt 1)]; JStr (cached_marker (u "dict with keys: k"))]).
Proof.
  apply (cache_and_replace_only_replaces_subtrees isprintable_ascii
           (JArr [JObj [(u "k", JInt 1)]; JObj [(u "k", JInt 1)]]) [] proxy0
           (JArr [JObj [(u "k", JInt 1)];
                  JStr (cached_marker (u "dict with keys: k"))])
           (snd (cache_and_replace isprintable_ascii
                   (JArr [JObj [(u "k", JInt 1)]; JObj [(u "k", JInt 1)]])
                   [] proxy0)));
    vm_compute; reflexivity.
Defined.

Lemma cache_entries_are_previews_witness :
  json_cache proxy0 !! fingerprint (JArr [JInt 1]) = Some (u "array with 1 items")
  \/ exists v,
      v ∈ visited [] (JArr [JInt 1]) /\ is_composite v = true
      /\ compute_hash v = Ok (fingerprint (JArr [JInt 1]))
      /\ create_preview isprintable_ascii v 60 = Ok (u "array with 1 items").
Proof.
  apply (cache_entries_are_previews isprintable_ascii (JArr [JInt 1]) [] proxy0).
  vm_compute. reflexivity.
Defined.


Lemma parse_streaming_response_without_events_witness :
  parse_streaming_response isprintable_ascii json_loads_table
    (u "data: {}" ++ [NL] ++ u "hello")
  = Ok STREAM_HEADER.
Proof.
  apply (parse_streaming_response_without_events isprintable_ascii json_loads_table
           (u "data: {}" ++ [NL] ++ u "hello")).
  vm_compute. repeat constructor.
Defined.

Lemma parse_streaming_response_tolerant_witness :
  exists rest,
    parse_streaming_response isprintable_ascii json_loads_table stream_example
    = Ok (join [NL] (STREAM_HEADER :: rest)).
Proof.
  apply (parse_streaming_response_tolerant isprintable_ascii json_loads_table
           stream_example (example_events [u "Hel"; u "lo"])).
  - vm_compute. reflexivity.
  - vm_compute. repeat constructor.
Defined.



(** * Counterexamples *)

(** C1 as stated fails: with show-tools off, printing a request whose body
    is [{"tools": [{"name": "get_weather", "description": "d"}]}] leaves
    the fingerprint of the tools value, and that of the tool inside it, in
    the cache. *)
Lemma tools_not_filtered_before_collapse :
  let tr := print_request isprintable_ascii json_loads_table stdout_utf8
              (u "2026-01-01 00:00:00.000") (u "POST") (u "/v1/messages")
              [] (Some (bytes_of tools_text)) proxy0 in
  show_tools proxy0 = false
  /\ decode_utf8 (bytes_of tools_text) = Some tools_text
  /\ json_loads_table tools_text = Ok tools_doc
  /\ dict_get (u "tools") [(u "tools", JArr [tool_doc])] = Some (JArr [tool_doc])
  /\ tr_result tr = Ok tt
  /\ json_cache (tr_self tr) !! fingerprint (JArr [tool_doc])
     = Some (u "array with 1 items")
  /\ json_cache (tr_self tr) !! fingerprint tool_doc
     = Some (u "tool: get_weather").
Proof. vm_compute. repeat split; reflexivity. Qed.

(** C3 as stated fails: at the top level the child under "model" is not
    collapsed.  The list [[1]] is in the cache already, so its collapse is
    a marker, yet the new mapping [{"model": [1]}] comes back with the
    list itself. *)
Lemma exempt_child_not_collapsed :
  let seen := snd (cache_and_replace isprintable_ascii (JArr [JInt 1]) [] proxy0) in
  let value := JObj [(u "model", JArr [JInt 1])] in
  json_cache seen !! fingerprint value = None
  /\ fst (cache_and_replace isprintable_ascii (JArr [JInt 1]) (u "model") seen)
     = Ok (JStr (cached_marker (u "array with 1 items")))
  /\ fst (cache_and_replace isprintable_ascii value [] seen)
     = Ok (JObj [(u "model", JArr [JInt 1])]).
Proof. vm_compute. repeat split; reflexivity. Qed.

(** C6 as stated fails: when the whole body was seen before, the body is
    replaced by one marker, and the value of "model" is not copied into
    the result. *)
Lemma exempt_value_dropped_with_repeated_body :
  let body := JObj [(u "model", JArr [JInt 1]); (u "max_tokens", JInt 10)] in
  let first := cache_and_replace isprintable_ascii body [] proxy0 in
  fst first = Ok body
  /\ cache_and_replace isprintable_ascii body [] (snd first)
     = (Ok (JStr (cached_marker (u "dict with keys: model, max_tokens"))),
        snd first).
Proof. vm_compute. repeat split; reflexivity. Qed.
